(** * Feed data preparation for the static site: a shallow embedding of
    [src/action/eleventy/data.js] and the properties of its content
    addressing and of the reconciliation of the readability cache. *)

From Stdlib Require Import ZArith Lia Ascii String List.
From stdpp Require Import base option list strings pretty sorting gmap.

Local Open Scope Z_scope.

(** ** The hasher: [crypto.createHash('sha256')] with a hexadecimal digest

    Strings are byte strings (the UTF-8 form [hash.update] consumes); the
    digest follows FIPS 180-4 on 32-bit words kept in [Z]. *)

Module Sha256.

Definition mask32 : Z := 0xffffffff.
Definition w32 (x : Z) : Z := Z.land x mask32.
Definition add32 (x y : Z) : Z := w32 (x + y).
Definition rotr (n x : Z) : Z :=
  Z.lor (Z.shiftr x n) (w32 (Z.shiftl x (32 - n))).
Definition not32 (x : Z) : Z := Z.lxor x mask32.

Definition Ch (x y z : Z) : Z := Z.lxor (Z.land x y) (Z.land (not32 x) z).
Definition Maj (x y z : Z) : Z :=
  Z.lxor (Z.lxor (Z.land x y) (Z.land x z)) (Z.land y z).
Definition Sigma0 (x : Z) : Z :=
  Z.lxor (Z.lxor (rotr 2 x) (rotr 13 x)) (rotr 22 x).
Definition Sigma1 (x : Z) : Z :=
  Z.lxor (Z.lxor (rotr 6 x) (rotr 11 x)) (rotr 25 x).
Definition sigma0 (x : Z) : Z :=
  Z.lxor (Z.lxor (rotr 7 x) (rotr 18 x)) (Z.shiftr x 3).
Definition sigma1 (x : Z) : Z :=
  Z.lxor (Z.lxor (rotr 17 x) (rotr 19 x)) (Z.shiftr x 10).

(** The constants are what FIPS 180-4 says they are: the first 32 bits of
    the fractional part of the cube root (for [K]) and of the square root
    (for [H0]) of the first primes. *)
Definition primes : list Z :=
  [2; 3; 5; 7; 11; 13; 17; 19; 23; 29; 31; 37; 41; 43; 47; 53; 59; 61; 67; 71; 73;
   79; 83; 89; 97; 101; 103; 107; 109; 113; 127; 131; 137; 139; 149; 151; 157;
   163; 167; 173; 179; 181; 191; 193; 197; 199; 211; 223; 227; 229; 233; 239;
   241; 251; 257; 263; 269; 271; 277; 281; 283; 293; 307; 311].

(** The integer cube root, one bit at a time from bit [n - 1] down. *)
Fixpoint cube_root (n : nat) (x r : Z) : Z :=
  match n with
  | O => r
  | S n =>
      let r' := r + 2 ^ Z.of_nat n in
      if r' * r' * r' <=? x then cube_root n x r' else cube_root n x r
  end.

Definition K : list Z :=
  Eval cbv in List.map (fun p => w32 (cube_root 36 (p * 2 ^ 96) 0)) primes.

Definition H0 : list Z :=
  Eval cbv in List.map (fun p => w32 (Z.sqrt (p * 2 ^ 64))) (firstn 8 primes).

Definition bytes_of_string (s : string) : list Z :=
  List.map (fun c => Z.of_N (N_of_ascii c)) (list_ascii_of_string s).

(** The message followed by the bit 1, zero bytes up to 56 modulo 64, and
    the length in bits as a big-endian 64-bit number. *)
Definition be_bytes (n : nat) (x : Z) : list Z :=
  List.map (fun i => Z.land (Z.shiftr x (8 * Z.of_nat i)) 0xff) (rev (seq 0 n)).

Definition pad (msg : list Z) : list Z :=
  let len := Z.of_nat (length msg) in
  let zeros := Z.to_nat ((55 - len) mod 64) in
  msg ++ 0x80 :: repeat 0 zeros ++ be_bytes 8 (8 * len).

Fixpoint words (fuel : nat) (bs : list Z) : list Z :=
  match fuel, bs with
  | S fuel, b0 :: b1 :: b2 :: b3 :: rest =>
      (Z.shiftl b0 24 + Z.shiftl b1 16 + Z.shiftl b2 8 + b3)
        :: words fuel rest
  | _, _ => []
  end.

Fixpoint blocks (fuel : nat) (ws : list Z) : list (list Z) :=
  match fuel, ws with
  | S fuel, _ :: _ => firstn 16 ws :: blocks fuel (skipn 16 ws)
  | _, _ => []
  end.

(** The message schedule, with the most recent word first. *)
Fixpoint schedule (n : nat) (rw : list Z) : list Z :=
  match n with
  | O => rw
  | S n =>
      let w := add32 (add32 (sigma1 (nth 1 rw 0)) (nth 6 rw 0))
                     (add32 (sigma0 (nth 14 rw 0)) (nth 15 rw 0)) in
      schedule n (w :: rw)
  end.

Definition round (st : list Z) (kw : Z * Z) : list Z :=
  match st with
  | [a; b; c; d; e; f; g; h] =>
      let t1 := add32 (add32 (add32 h (Sigma1 e)) (add32 (Ch e f g) kw.1)) kw.2 in
      let t2 := add32 (Sigma0 a) (Maj a b c) in
      [add32 t1 t2; a; b; c; add32 d t1; e; f; g]
  | _ => st
  end.

Definition compress (h : list Z) (block : list Z) : list Z :=
  let w := rev (schedule 48 (rev block)) in
  let st := fold_left round (combine K w) h in
  List.map (fun p => add32 p.1 p.2) (combine h st).

Definition hex_digit (d : Z) : ascii :=
  ascii_of_N (Z.to_N (if d <? 10 then 48 + d else 87 + d)).

Definition hex_word (x : Z) : list ascii :=
  List.map (fun i => hex_digit (Z.land (Z.shiftr x (4 * Z.of_nat i)) 0xf))
           (rev (seq 0 8)).

Definition digest_hex (s : string) : string :=
  let bs := pad (bytes_of_string s) in
  let ws := words (length bs) bs in
  let h := fold_left compress (blocks (length ws) ws) H0 in
  string_of_list_ascii (List.concat (List.map hex_word h)).

End Sha256.

(** [createHash(input)]: lines 108-112. *)
Definition createHash (input : string) : string := Sha256.digest_hex input.


(** ** Strings as the code slices them *)

(** [s.substring(0, end)]: a negative end is taken as 0, one past the end as
    the length. *)
Definition substring0 (s : string) (e : Z) : string :=
  String.substring 0 (Z.to_nat e) s.

(** [s.slice(0, end)]: a negative end counts from the end of the string. *)
Definition slice0 (s : string) (e : Z) : string :=
  let len := Z.of_nat (String.length s) in
  String.substring 0 (Z.to_nat (if e <? 0 then Z.max (len + e) 0 else e)) s.

Definition dot_json : string := ".json".
Definition strlen (s : string) : Z := Z.of_nat (String.length s).

(** [s.split('/')] *)
Fixpoint split_slash (s : string) : list string :=
  match s with
  | EmptyString => [EmptyString]
  | String c rest =>
      if Ascii.eqb c "/"%char then EmptyString :: split_slash rest
      else match split_slash rest with
           | [] => [String c EmptyString]
           | hd :: tl => String c hd :: tl
           end
  end.

(** ** Data model: the typedefs of lines 3-45 *)

(** Modelled from the spec: the [Entry] type of [../feeds/parsers], which is
    not part of the sources at hand; the spec gives a raw entry the fields
    title, link, date and author, the date being a timestamp. *)
Record Entry := mkEntry {
  title : string;
  link : string;
  date : Z;
  author : string }.

(** Modelled from the spec: the [Site] type of [../feeds/parsers]: a feed
    file holds a title, a link, an update time and the ordered entries. *)
Record Site := mkSite {
  feed_title : string;
  feed_link : string;
  feed_updatedAt : Z;
  feed_entries : list Entry }.

(** [EntryData]: an [Entry] (the spread [...entry]) and four more fields. *)
Record EntryData := mkEntryData {
  entry :> Entry;
  siteTitle : string;
  siteHash : string;
  entryHash : string;
  category : string }.

Record SiteEntryData := mkSiteEntryData {
  se_title : string;
  se_link : string;
  se_date : Z;
  se_author : string;
  se_category : string;
  se_siteTitle : string;
  se_siteHash : string;
  se_entryHash : string }.

Record SiteData := mkSiteData {
  sd_title : string;
  sd_link : string;
  sd_updatedAt : Z;
  sd_siteHash : string }.

Record SiteDataWithEntries := mkSiteDataWithEntries {
  site :> SiteData;
  entries : list SiteEntryData }.

Record CategoryData := mkCategoryData {
  name : string;
  sites : list SiteData }.

Record RepositoryData := mkRepositoryData { repository : string }.

(** The record of line 309: [{...json, content: minifyContent}]. *)
Record ReadabilityData := mkReadabilityData {
  cached :> EntryData;
  content : string }.

#[global] Instance Entry_eq_dec : EqDecision Entry.
Proof. solve_decision. Defined.
#[global] Instance EntryData_eq_dec : EqDecision EntryData.
Proof. solve_decision. Defined.
#[global] Instance SiteEntryData_eq_dec : EqDecision SiteEntryData.
Proof. solve_decision. Defined.

(** ** Thrown values *)

(** What the runtime throws is an [Error] object ([fs] errors carry a
    [code]); [throw] accepts any value, of which a bare string is kept
    because line 385 compares the caught value with one. *)
Record Error := mkError {
  err_name : string;
  err_code : option string;
  err_message : string }.

Inductive thrown :=
| ErrorObject (e : Error)
| StringValue (s : string).

#[global] Instance Error_eq_dec : EqDecision Error.
Proof. solve_decision. Defined.
#[global] Instance thrown_eq_dec : EqDecision thrown.
Proof. solve_decision. Defined.

(** [error.code] and [error.message]; a string has neither property. *)
Definition code (t : thrown) : option string :=
  match t with ErrorObject e => err_code e | StringValue _ => None end.
Definition message (t : thrown) : string :=
  match t with ErrorObject e => err_message e | StringValue _ => "undefined" end.

(** [error !== s] for a string literal [s]: strict inequality, which holds
    between an object and any string. *)
Definition strict_neq_string (t : thrown) (s : string) : bool :=
  match t with
  | ErrorObject _ => true
  | StringValue s' => negb (String.eqb s' s)
  end.

Definition system_error (c syscall path : string) : thrown :=
  ErrorObject (mkError "Error" (Some c) (c +:+ ": " +:+ syscall +:+ " '" +:+ path +:+ "'")).
Definition ENOENT : string -> string -> thrown := system_error "ENOENT".
Definition ENOTDIR : string -> string -> thrown := system_error "ENOTDIR".
Definition SyntaxError (msg : string) : thrown :=
  ErrorObject (mkError "SyntaxError" None msg).

(** ** The file system

    A file holds either the text [JSON.stringify] makes of a record (kept as
    the record: [JSON.parse] gives it back) or text that [JSON.parse]
    rejects. Each path constant of lines 54-78 names one directory, a store
    of its own; a store that is [None] does not exist yet. The stores the
    code only writes hold the records it writes there. *)
Inductive file (A : Type) :=
| Json (doc : A)
| Malformed (text : string).
Arguments Json {A} doc.
Arguments Malformed {A} text.

Inductive feed_node :=
| CategoryDirectory (siteFiles : gmap string (file Site))
| RegularFile.

Inductive document :=
| CategoriesIndex (cs : list CategoryData)
| AllEntries (es : list SiteEntryData)
| RepositoryFile (r : RepositoryData).

Record FileSystem := mkFileSystem {
  feedsContent : option (gmap string feed_node);
  embeddedData : option (gmap string document);
  dataDir : option (gmap string document);
  categoryData : option (gmap string (list SiteEntryData));
  sitesData : option (gmap string SiteDataWithEntries);
  entriesData : option (gmap string (file EntryData));
  readabilityCache : option (gmap string ReadabilityData);
  workspaceReadabilityCache : option (gmap string (file ReadabilityData)) }.

(** A path constant: the store it names, with its name for error messages
    and whether it is joined to [DATA_PATH] (lines 69-72). *)
Record store (A : Type) := mkStore {
  path : string;
  under_data : bool;
  get : FileSystem -> option (gmap string A);
  set : option (gmap string A) -> FileSystem -> FileSystem }.
Arguments path {A} s.
Arguments under_data {A} s.
Arguments get {A} s fs.
Arguments set {A} s d fs.

Definition EMBEDDED_DATA_PATH : store document :=
  mkStore _ "pages/_data" false embeddedData
    (fun d f => mkFileSystem (feedsContent f) d (dataDir f) (categoryData f)
       (sitesData f) (entriesData f) (readabilityCache f) (workspaceReadabilityCache f)).
Definition DATA_PATH : store document :=
  mkStore _ "pages/data" false dataDir
    (fun d f => mkFileSystem (feedsContent f) (embeddedData f) d (categoryData f)
       (sitesData f) (entriesData f) (readabilityCache f) (workspaceReadabilityCache f)).
Definition CATEGORY_DATA_PATH : store (list SiteEntryData) :=
  mkStore _ "pages/data/categories" true categoryData
    (fun d f => mkFileSystem (feedsContent f) (embeddedData f) (dataDir f) d
       (sitesData f) (entriesData f) (readabilityCache f) (workspaceReadabilityCache f)).
Definition SITES_DATA_PATH : store SiteDataWithEntries :=
  mkStore _ "pages/data/sites" true sitesData
    (fun d f => mkFileSystem (feedsContent f) (embeddedData f) (dataDir f) (categoryData f)
       d (entriesData f) (readabilityCache f) (workspaceReadabilityCache f)).
Definition ENTRIES_DATA_PATH : store (file EntryData) :=
  mkStore _ "pages/data/entries" true entriesData
    (fun d f => mkFileSystem (feedsContent f) (embeddedData f) (dataDir f) (categoryData f)
       (sitesData f) d (readabilityCache f) (workspaceReadabilityCache f)).
Definition READABILITY_CACHE_PATH : store ReadabilityData :=
  mkStore _ "pages/data/readability" true readabilityCache
    (fun d f => mkFileSystem (feedsContent f) (embeddedData f) (dataDir f) (categoryData f)
       (sitesData f) (entriesData f) d (workspaceReadabilityCache f)).
Definition WORKSPACE_READABILITY_CACHE_PATH : store (file ReadabilityData) :=
  mkStore _ "data/readability" false workspaceReadabilityCache
    (fun d f => mkFileSystem (feedsContent f) (embeddedData f) (dataDir f) (categoryData f)
       (sitesData f) (entriesData f) (readabilityCache f) d).
Definition FEEDS_CONTENT_PATH : string := "contents".

(** ** Effects

    What the run does besides changing files, in the order it happens.
    [Iteration] is emitted where the loop of line 269 takes its next
    element, and [LoadContent] keeps the element the loop is at; neither is
    an action of the program. *)
Inductive event :=
| ConsoleLog (msg : string)
| ConsoleError (msg : string)
| Iteration (entryHashFile : string)
| LoadContent (entryHashFile : string) (json : EntryData)
| Close
| SetFailed (error : thrown).

#[global] Instance event_eq_dec : EqDecision event.
Proof. solve_decision. Defined.

Inductive Result (A : Type) :=
| Return (a : A)
| Throw (e : thrown).
Arguments Return {A} a.
Arguments Throw {A} e.

(** The collaborators of [../puppeteer], [html-minifier] and the CI host:
    the browser is a state the two calls act on, [loadContent] resolves to
    content or to nothing, or rejects; [close] resolves or rejects with
    what it throws; [minify] may throw. *)
Class Collaborators := {
  Browser : Type;
  loadContent : EntryData -> Browser -> (thrown + option string) * Browser;
  close : Browser -> option thrown * Browser;
  minify : string -> thrown + string;
  customDomain : string;
  GITHUB_REPOSITORY : option string }.

Section Program.
Context `{Collaborators}.

Record World := mkWorld {
  fs : FileSystem;
  page : Browser;
  output : list event }.

(** A computation changes the world and returns or throws; what it did
    before it threw stays done. *)
Definition M (A : Type) : Type := World -> Result A * World.

Definition ret {A} (a : A) : M A := fun w => (Return a, w).
Definition throw {A} (e : thrown) : M A := fun w => (Throw e, w).
Definition bind {A B} (m : M A) (k : A -> M B) : M B :=
  fun w => match m w with
           | (Return a, w') => k a w'
           | (Throw e, w') => (Throw e, w')
           end.
Definition tryCatch {A} (m : M A) (handler : thrown -> M A) : M A :=
  fun w => match m w with
           | (Return a, w') => (Return a, w')
           | (Throw e, w') => handler e w'
           end.

Notation "x <- m ;; k" := (bind m (fun x => k))
  (at level 100, m at next level, right associativity).
Notation "m ;; k" := (bind m (fun _ => k))
  (at level 100, right associativity).

Definition emit (e : event) : M unit :=
  fun w => (Return tt, mkWorld (fs w) (page w) (output w ++ [e])).
Definition console_log (msg : string) : M unit := emit (ConsoleLog msg).
Definition console_error (msg : string) : M unit := emit (ConsoleError msg).
Definition core_setFailed (error : thrown) : M unit := emit (SetFailed error).

Definition with_fs (f : FileSystem) (w : World) : World :=
  mkWorld f (page w) (output w).

(** [for (const x of xs) { ... }] with the variables the body updates. *)
Fixpoint forOf {A S} (xs : list A) (s : S) (body : S -> A -> M S) : M S :=
  match xs with
  | [] => ret s
  | x :: xs' => s' <- body s x ;; forOf xs' s' body
  end.

(** [xs.map(f)] for a callback with effects. *)
Fixpoint Array_map {A B} (f : A -> M B) (xs : list A) : M (list B) :=
  match xs with
  | [] => ret []
  | x :: xs' => y <- f x ;; ys <- Array_map f xs' ;; ret (y :: ys)
  end.

(** *** [fs] *)

Definition readdirSync {A} (s : store A) : M (list string) :=
  fun w => match get s (fs w) with
           | None => (Throw (ENOENT "scandir" (path s)), w)
           | Some d => (Return (map_to_list d).*1, w)
           end.

Definition readFileSync {A} (s : store A) (file : string) : M A :=
  fun w => match get s (fs w) ≫= (.!! file) with
           | None => (Throw (ENOENT "open" (path s +:+ "/" +:+ file)), w)
           | Some f => (Return f, w)
           end.

Definition statSync {A} (s : store A) (file : string) : M unit :=
  fun w => match get s (fs w) ≫= (.!! file) with
           | None => (Throw (ENOENT "stat" (path s +:+ "/" +:+ file)), w)
           | Some _ => (Return tt, w)
           end.

Definition writeFileSync {A} (s : store A) (file : string) (data : A) : M unit :=
  fun w => match get s (fs w) with
           | None => (Throw (ENOENT "open" (path s +:+ "/" +:+ file)), w)
           | Some d => (Return tt, with_fs (set s (Some (<[file := data]> d)) (fs w)) w)
           end.

Definition unlinkSync {A} (s : store A) (file : string) : M unit :=
  fun w => match get s (fs w) with
           | None => (Throw (ENOENT "unlink" (path s +:+ "/" +:+ file)), w)
           | Some d =>
               match d !! file with
               | None => (Throw (ENOENT "unlink" (path s +:+ "/" +:+ file)), w)
               | Some _ => (Return tt, with_fs (set s (Some (delete file d)) (fs w)) w)
               end
           end.

(** [fs.mkdirSync(p, { recursive: true })]: nothing to do when the
    directory is there; missing parents are made. *)
Definition ensure {A} (s : store A) (f : FileSystem) : FileSystem :=
  match get s f with
  | None => set s (Some ∅) f
  | Some _ => f
  end.
Definition mkdirSync {A} (s : store A) : M unit :=
  fun w =>
    let f := if under_data s then ensure DATA_PATH (fs w) else fs w in
    (Return tt, with_fs (ensure s f) w).

(** The feeds tree is only read: [feedsContentPath], its category
    directories and their site files. *)
Definition statSync_feeds : M unit :=
  fun w => match feedsContent (fs w) with
           | None => (Throw (ENOENT "stat" FEEDS_CONTENT_PATH), w)
           | Some _ => (Return tt, w)
           end.

Definition readdirSync_feeds : M (list string) :=
  fun w => match feedsContent (fs w) with
           | None => (Throw (ENOENT "scandir" FEEDS_CONTENT_PATH), w)
           | Some d => (Return (map_to_list d).*1, w)
           end.

Definition readdirSync_category (category : string) : M (list string) :=
  fun w => match feedsContent (fs w) ≫= (.!! category) with
           | None => (Throw (ENOENT "scandir" (FEEDS_CONTENT_PATH +:+ "/" +:+ category)), w)
           | Some RegularFile =>
               (Throw (ENOTDIR "scandir" (FEEDS_CONTENT_PATH +:+ "/" +:+ category)), w)
           | Some (CategoryDirectory d) => (Return (map_to_list d).*1, w)
           end.

Definition readFileSync_category (category site : string) : M (file Site) :=
  let p := FEEDS_CONTENT_PATH +:+ "/" +:+ category +:+ "/" +:+ site in
  fun w => match feedsContent (fs w) ≫= (.!! category) with
           | None => (Throw (ENOENT "open" p), w)
           | Some RegularFile => (Throw (ENOTDIR "open" p), w)
           | Some (CategoryDirectory d) =>
               match d !! site with
               | None => (Throw (ENOENT "open" p), w)
               | Some f => (Return f, w)
               end
           end.

Definition JSON_parse {A} (text : file A) : M A :=
  match text with
  | Json doc => ret doc
  | Malformed _ => throw (SyntaxError "Unexpected token in JSON")
  end.

(** *** Built-ins *)

(** [xs.sort(compareFn)]: the sort of ECMAScript 2019, which is stable: an
    element moves in front of another only when [compareFn] puts it
    strictly before. Insertion from the right end gives that order. *)
Fixpoint sort_insert {A} (compareFn : A -> A -> Z) (x : A) (sorted : list A) : list A :=
  match sorted with
  | [] => [x]
  | y :: rest =>
      if compareFn x y <=? 0 then x :: sorted
      else y :: sort_insert compareFn x rest
  end.
Definition Array_sort {A} (compareFn : A -> A -> Z) (xs : list A) : list A :=
  foldr (sort_insert compareFn) [] xs.

(** [(a, b) => b.date - a.date] *)
Definition byDateDescending (a b : SiteEntryData) : Z := se_date b - se_date a.

(** A [Set] of strings keeps its elements once, in insertion order. *)
Definition Set_add (s : list string) (x : string) : list string :=
  if decide (x ∈ s) then s else s ++ [x].
Definition Set_new (xs : list string) : list string := foldl Set_add [] xs.
Definition Set_delete (s : list string) (x : string) : list string :=
  filter (fun y => y ≠ x) s.

(** [!content]: nothing, or the empty string. *)
Definition falsy (content : option string) : bool :=
  match content with
  | None => true
  | Some c => String.eqb c ""
  end.

(** *** The program *)

(** Lines 85-100. *)
Definition prepareDirectories : M unit :=
  statSync_feeds ;;
  mkdirSync EMBEDDED_DATA_PATH ;;
  mkdirSync CATEGORY_DATA_PATH ;;
  mkdirSync SITES_DATA_PATH ;;
  mkdirSync ENTRIES_DATA_PATH ;;
  mkdirSync READABILITY_CACHE_PATH.

(** Lines 124-139. *)
Definition createRepositoryData (githubRootName customDomainName : string)
  : M RepositoryData :=
  let isCustomDomainEnabled := negb (String.eqb customDomainName "") in
  let data :=
    mkRepositoryData
      (if negb isCustomDomainEnabled
          && (1 <? Z.of_nat (length (split_slash githubRootName)))
       then "/" +:+ nth 1 (split_slash githubRootName) ""
       else "") in
  writeFileSync EMBEDDED_DATA_PATH "github.json" (RepositoryFile data) ;;
  ret data.

(** Lines 151-169. *)
Definition createEntryData (category siteTitle siteHash : string) (entry : Entry)
  : M EntryData :=
  let entryHash := createHash (title entry +:+ "," +:+ link entry) in
  let data := mkEntryData entry siteTitle siteHash entryHash category in
  writeFileSync ENTRIES_DATA_PATH (entryHash +:+ dot_json) (Json data) ;;
  ret data.

(** Lines 184-226: the body of the loop over the site files. *)
Definition createSiteData (category : string) (result : list SiteDataWithEntries)
    (site : string) : M (list SiteDataWithEntries) :=
  content <- readFileSync_category category site ;;
  json <- JSON_parse content ;;
  let siteHash := createHash (substring0 site (strlen site - strlen dot_json)) in
  entries <- Array_map (fun entry =>
      entryData <- createEntryData category (feed_title json) siteHash entry ;;
      ret (mkSiteEntryData (title entryData) (link entryData) (date entryData)
             (author entryData) category (feed_title json) siteHash
             (entryHash entryData)))
    (feed_entries json) ;;
  let data :=
    mkSiteDataWithEntries
      (mkSiteData (feed_title json) (feed_link json) (feed_updatedAt json) siteHash)
      (Array_sort byDateDescending entries) in
  writeFileSync SITES_DATA_PATH (siteHash +:+ dot_json) data ;;
  ret (result ++ [data]).

(** Lines 179-229. *)
Definition createSitesData (category : string) (sites : list string)
  : M (list SiteDataWithEntries) :=
  forOf sites [] (createSiteData category).

(** Lines 234-252: the callback of the [map] over the entry files. *)
Definition readEntrySummary (entryHashFile : string) : M SiteEntryData :=
  entry <- readFileSync ENTRIES_DATA_PATH entryHashFile ;;
  json <- JSON_parse entry ;;
  ret (mkSiteEntryData (title json) (link json) (date json) (author json)
         (category json) (siteTitle json) (siteHash json) (entryHash json)).

(** Lines 231-256. *)
Definition createAllEntriesData : M unit :=
  entries <- readdirSync ENTRIES_DATA_PATH ;;
  entriesData <- Array_map readEntrySummary entries ;;
  let text := AllEntries (Array_sort byDateDescending entriesData) in
  writeFileSync DATA_PATH "all.json" text.

(** Lines 266-268: the eviction loop. *)
Definition evictStep (_ : unit) (oldEntry : string) : M unit :=
  unlinkSync WORKSPACE_READABILITY_CACHE_PATH oldEntry.
Definition evictOldCaches (previousSet : list string) : M unit :=
  forOf previousSet tt evictStep.

(** [await loadContent(json)] and [await close()] of [../puppeteer]. *)
Definition await_loadContent (entryHashFile : string) (json : EntryData)
  : M (option string) :=
  fun w =>
    let (r, b) := loadContent json (page w) in
    let w' := mkWorld (fs w) b (output w ++ [LoadContent entryHashFile json]) in
    match r with
    | inl error => (Throw error, w')
    | inr content => (Return content, w')
    end.
Definition await_close : M unit :=
  fun w =>
    let (r, b) := close (page w) in
    let w' := mkWorld (fs w) b (output w ++ [Close]) in
    match r with
    | Some error => (Throw error, w')
    | None => (Return tt, w')
    end.

Definition htmlmin_minify (content : string) : M string :=
  match minify content with
  | inl error => throw error
  | inr minified => ret minified
  end.

(** Lines 296-319: one attempt at enriching an entry. *)
Definition enrich (entryHashFile entryHash : string) (json : EntryData) : M unit :=
  tryCatch
    (content <- await_loadContent entryHashFile json ;;
     if falsy content then
       console_log (entryHash +:+ " - Skip " +:+ link json) ;;
       await_close
     else
       minifyContent <- htmlmin_minify (default "" content) ;;
       let entryData := mkReadabilityData json minifyContent in
       writeFileSync READABILITY_CACHE_PATH (entryHash +:+ dot_json) entryData ;;
       await_close)
    (fun error =>
       console_log (entryHash +:+ " - Fail to load " +:+ link json) ;;
       await_close).

(** Lines 270-319: the body of the fill loop; [continue] ends it. *)
Definition fillEntry (entryHashFile : string) : M unit :=
  let entryHash := slice0 entryHashFile (strlen entryHashFile - strlen dot_json) in
  cachedOrUnreadable <-
    tryCatch
      (statSync WORKSPACE_READABILITY_CACHE_PATH (entryHash +:+ dot_json) ;;
       console_log (entryHash +:+ " - Readability loaded, skip") ;;
       ret true)
      (fun error =>
         if negb (bool_decide (code error = Some "ENOENT")) then
           console_error (message error) ;; ret true
         else ret false) ;;
  if (cachedOrUnreadable : bool) then ret tt
  else
    entry <- readFileSync ENTRIES_DATA_PATH entryHashFile ;;
    json <- JSON_parse entry ;;
    console_log (entryHash +:+ " - Load " +:+ link json) ;;
    enrich entryHashFile entryHash json.

(** Lines 269-320: the fill loop. *)
Definition fillStep (_ : unit) (entryHashFile : string) : M unit :=
  emit (Iteration entryHashFile) ;; fillEntry entryHashFile.
Definition fillCache (entries : list string) : M unit :=
  forOf entries tt fillStep.

(** Lines 258-321. *)
Definition loadEntryWithPuppeteer : M unit :=
  entries <- readdirSync ENTRIES_DATA_PATH ;;
  cacheEntries <- readdirSync WORKSPACE_READABILITY_CACHE_PATH ;;
  let previousSet := foldl Set_delete (Set_new cacheEntries) entries in
  console_log ("Delete old caches " +:+ pretty (length previousSet)) ;;
  evictOldCaches previousSet ;;
  fillCache entries.

(** Lines 334-356: the body of the loop over the categories. *)
Definition createCategoryEntries (categoriesData : list CategoryData)
    (category : string) : M (list CategoryData) :=
  sites <- readdirSync_category category ;;
  sitesData <- createSitesData category sites ;;
  let categoryData :=
    mkCategoryData category
      (List.map (fun data : SiteDataWithEntries =>
              mkSiteData (sd_title data) (sd_link data) (sd_updatedAt data)
                (sd_siteHash data)) sitesData) in
  let categoryEntries :=
    foldl (fun acc (site : SiteDataWithEntries) => acc ++ entries site)
          [] sitesData in
  writeFileSync CATEGORY_DATA_PATH (category +:+ dot_json)
    (Array_sort byDateDescending categoryEntries) ;;
  ret (categoriesData ++ [categoryData]).

(** Lines 327-361. *)
Definition createCategoryData : M unit :=
  categories <- readdirSync_feeds ;;
  categoriesData <- forOf categories [] createCategoryEntries ;;
  let text := CategoriesIndex categoriesData in
  writeFileSync EMBEDDED_DATA_PATH "categories.json" text ;;
  writeFileSync DATA_PATH "categories.json" text.

(** Lines 384-389: the handler of the top-level [try]. *)
Definition reportFailure (error : thrown) : M unit :=
  if strict_neq_string error "ENOENT" then
    core_setFailed error ;; throw error
  else ret tt.

(** Lines 364-390. *)
Definition prepareEleventyData : M unit :=
  tryCatch
    (console_log "Preparing eleventy data" ;;
     let customDomainName := customDomain in
     let githubRootName := default "" GITHUB_REPOSITORY in
     prepareDirectories ;;
     createRepositoryData githubRootName customDomainName ;;
     createCategoryData ;;
     createAllEntriesData ;;
     loadEntryWithPuppeteer)
    reportFailure.

End Program.

(** ** What the properties speak of *)

(** The identifier the entry materializer gives an entry, and the name of
    the file it writes. *)
Definition identifier (e : Entry) : string :=
  createHash (title e +:+ "," +:+ link e).
Definition entryFile (e : Entry) : string := identifier e +:+ dot_json.

(** The name of a site file without its last five characters. *)
Definition baseName (site : string) : string :=
  substring0 site (strlen site - strlen dot_json).

(** The feed file of a site, when it is there. *)
Definition siteFile (f : FileSystem) (category site : string) : option (file Site) :=
  match feedsContent f ≫= (.!! category) with
  | Some (CategoryDirectory d) => d !! site
  | _ => None
  end.

(** The records one feed gives rise to, in the order of its entries. *)
Definition entriesOf (category site : string) (json : Site) : list EntryData :=
  List.map (fun e => mkEntryData e (feed_title json) (createHash (baseName site))
                       (identifier e) category)
           (feed_entries json).

Definition summary (data : EntryData) : SiteEntryData :=
  mkSiteEntryData (title data) (link data) (date data) (author data)
    (category data) (siteTitle data) (siteHash data) (entryHash data).

Definition siteDataOf (category site : string) (json : Site) : SiteDataWithEntries :=
  mkSiteDataWithEntries
    (mkSiteData (feed_title json) (feed_link json) (feed_updatedAt json)
       (createHash (baseName site)))
    (Array_sort byDateDescending (List.map summary (entriesOf category site json))).

(** The entries store after the records of a list are written in turn. *)
Definition recordAll (records : list EntryData) (d : gmap string (file EntryData))
  : gmap string (file EntryData) :=
  foldl (fun d data => <[entryHash data +:+ dot_json := Json data]> d) d records.

(** Every record the run materializes, in the order the categories, their
    sites and the entries of each site are processed. *)
Definition categoryNames (f : FileSystem) : list string :=
  match feedsContent f with
  | Some d => (map_to_list d).*1
  | None => []
  end.
Definition siteNames (f : FileSystem) (category : string) : list string :=
  match feedsContent f ≫= (.!! category) with
  | Some (CategoryDirectory d) => (map_to_list d).*1
  | _ => []
  end.
Definition siteRecords (f : FileSystem) (category site : string) : list EntryData :=
  match siteFile f category site with
  | Some (Json json) => entriesOf category site json
  | _ => []
  end.
Definition materialized (f : FileSystem) : list EntryData :=
  List.concat (List.map (fun category =>
      List.concat (List.map (siteRecords f category) (siteNames f category)))
    (categoryNames f)).

(** A record that carries the identifier of its own title and link. *)
Definition wellKeyed (data : EntryData) : Prop := entryHash data = identifier data.

(** The entries store is keyed by identifier: a record sits in the file
    named after the hash of its own title and link. *)
Definition keyedByIdentifier (d : gmap string (file EntryData)) : Prop :=
  forall fileName (data : EntryData),
    d !! fileName = Some (Json data) -> fileName = entryFile data.

(** In descending order of date. *)
Definition newerFirst (a b : SiteEntryData) : Prop := se_date b <= se_date a.

(** The cache file the fill loop looks for when it is at an entry file. *)
Definition cacheFile (entryHashFile : string) : string :=
  slice0 entryHashFile (strlen entryHashFile - strlen dot_json) +:+ dot_json.

(** The page of the browser is released or held by a fetch; a fetch or the
    start of the next entry while the page is held breaks the protocol. *)
Inductive pageState := Released | Held.

Definition protocol (q : option pageState) (ev : event) : option pageState :=
  match q, ev with
  | None, _ => None
  | Some Held, LoadContent _ _ => None
  | Some Held, Iteration _ => None
  | Some Released, LoadContent _ _ => Some Held
  | Some _, Close => Some Released
  | Some q, _ => Some q
  end.

Definition releasedAfterEachFetch (trace : list event) : Prop :=
  foldl protocol (Some Released) trace = Some Released.

(** How an attempt at enriching an entry ends: with the minified content
    to cache, with no content, or with an error (of the fetch, of the
    minifier or of the write). *)
Inductive attempt := Enriched (minified : string) | NoContent | Failed.

(** The digits of a hexadecimal digest. *)
Definition hexDigits : list ascii := list_ascii_of_string "0123456789abcdef".

(** An event that is no report to the CI host. *)
Definition noReport (ev : event) : Prop :=
  match ev with SetFailed _ => False | _ => True end.

(** A string without a slash. *)
Definition noSlash (s : string) : Prop := "/"%char ∉ list_ascii_of_string s.



(** The second list is the first in descending order of date, the entries
    of one date in the order they had. *)
Definition stablySorted (input sorted : list SiteEntryData) : Prop :=
  sorted ≡ₚ input
  /\ Sorted newerFirst sorted
  /\ forall d, filter (fun e => se_date e = d) sorted
               = filter (fun e => se_date e = d) input.

Section Vocabulary.
Context `{Collaborators}.

Definition attemptOf (json : EntryData) (w : World) : attempt :=
  match (loadContent json (page w)).1 with
  | inl _ => Failed
  | inr content =>
      if falsy content then NoContent
      else match minify (default "" content), readabilityCache (fs w) with
           | inr minified, Some _ => Enriched minified
           | _, _ => Failed
           end
  end.

(** The release of the page in the [try] block (line 300 or 314) rejects:
    the attempt came as far as that call, and the call failed. The handler
    then runs as it does after a failed attempt. *)
Definition blockReleaseFails (json : EntryData) (w : World) : bool :=
  match attemptOf json w, (close (loadContent json (page w)).2).1 with
  | Failed, _ => false
  | _, None => false
  | _, Some _ => true
  end.

(** What the release call of the handler (line 317) rejects with, when the
    handler runs and its call rejects; nothing catches it. *)
Definition handlerErrorOf (json : EntryData) (w : World) : option thrown :=
  let b := (loadContent json (page w)).2 in
  if blockReleaseFails json w then (close (close b).2).1
  else match attemptOf json w with
       | Failed => (close b).1
       | _ => None
       end.

(** The entry files of a list can all be read and parsed. *)
Definition readable (entries : list string) (w : World) : Prop :=
  forall f, f ∈ entries ->
    exists json : EntryData, entriesData (fs w) ≫= (.!! f) = Some (Json json).

(** The world after some more events. *)
Definition logged (w : World) (t : list event) : World :=
  mkWorld (fs w) (page w) (output w ++ t).

(** A relation between the worlds before and after a computation that
    holds however the computation ends. *)
Definition preserves {A} (R : World -> World -> Prop) (m : M A) : Prop :=
  forall w r w', m w = (r, w') -> R w w'.

(** A computation that only looks at the world. *)
Definition readonly {A} (m : M A) : Prop :=
  forall w r w', m w = (r, w') -> w' = w.

(** Two worlds that agree on one part of the file system. *)
Definition same {X} (g : FileSystem -> X) (w w' : World) : Prop :=
  g (fs w) = g (fs w').

(** A computation that throws nothing but [Error] objects. *)
Definition throwsErrors {A} (m : M A) : Prop :=
  forall w t w', m w = (Throw t, w') -> exists e, t = ErrorObject e.

(** One of the phases before the reconciler throws: the directory setup
    (with the repository file written next), the category aggregation or
    the global indexing. *)
Definition fatalPhase (w : World) (t : thrown) (w' : World) : Prop :=
  let w0 := logged w [ConsoleLog "Preparing eleventy data"] in
  prepareDirectories w0 = (Throw t, w')
  \/ exists w1,
       prepareDirectories w0 = (Return tt, w1)
       /\ (createRepositoryData (default "" GITHUB_REPOSITORY) customDomain w1
           = (Throw t, w')
           \/ exists data w2,
                createRepositoryData (default "" GITHUB_REPOSITORY) customDomain w1
                = (Return data, w2)
                /\ (createCategoryData w2 = (Throw t, w')
                    \/ exists w3,
                         createCategoryData w2 = (Return tt, w3)
                         /\ createAllEntriesData w3 = (Throw t, w'))).

(** The block of the top-level [try] (lines 366-383). *)
Definition pass : M unit :=
  bind (console_log "Preparing eleventy data") (fun _ =>
    bind prepareDirectories (fun _ =>
      bind (createRepositoryData (default "" GITHUB_REPOSITORY) customDomain) (fun _ =>
        bind createCategoryData (fun _ =>
          bind createAllEntriesData (fun _ => loadEntryWithPuppeteer))))).

(** The second world has the events of the first and then some more, all
    of one kind. *)
Definition emits (P : event -> Prop) (w w' : World) : Prop :=
  exists t, output w' = output w ++ t /\ Forall P t.

(** The summary of a site in the index of the categories (lines 339-344). *)
Definition siteSummary (data : SiteDataWithEntries) : SiteData :=
  mkSiteData (sd_title data) (sd_link data) (sd_updatedAt data) (sd_siteHash data).

(** Every file of a store is still there afterwards (with whatever
    content), and every file of a store afterwards was there before with
    that content. *)
Definition keepsFiles {A} (g : FileSystem -> option (gmap string A)) (w w' : World)
  : Prop :=
  forall k, is_Some (g (fs w) ≫= (.!! k)) -> is_Some (g (fs w') ≫= (.!! k)).
Definition addsNoFile {A} (g : FileSystem -> option (gmap string A)) (w w' : World)
  : Prop :=
  forall k v, g (fs w') ≫= (.!! k) = Some v -> g (fs w) ≫= (.!! k) = Some v.
End Vocabulary.

(** ** A sample run: one category [tech] with one feed [a.json]

    The browser is the number of pages left open; content is found for the
    first entry only, the second has none and the third fails to load; the
    release of a page never fails. *)
Definition sample_collaborators : Collaborators :=
  {| Browser := nat;
     loadContent := fun json pages =>
       (if String.eqb (link json) "https://a/1" then inr (Some "<p>one</p>")
        else if String.eqb (link json) "https://a/2" then inr None
        else inl (ErrorObject (mkError "TimeoutError" None "Navigation timeout")),
        S pages);
     close := fun pages => (None, Nat.pred pages);
     minify := fun content => inr content;
     customDomain := "";
     GITHUB_REPOSITORY := Some "llun/feeds" |}.

Definition sample_entry1 : Entry := mkEntry "E1" "https://a/1" 100 "x".
Definition sample_entry2 : Entry := mkEntry "E2" "https://a/2" 100 "y".
Definition sample_entry3 : Entry := mkEntry "E3" "https://a/3" 200 "z".
Definition sample_site : Site :=
  mkSite "A" "https://a" 1 [sample_entry1; sample_entry2; sample_entry3].

Definition sample_fs : FileSystem :=
  mkFileSystem
    (Some {[ "tech" := CategoryDirectory {[ "a.json" := Json sample_site ]} ]})
    None None None None None None (Some ∅).

Definition sample_world : @World sample_collaborators :=
  @mkWorld sample_collaborators sample_fs 0%nat [].

(** The sample after the directories are made. *)
Definition sample_prepared : @World sample_collaborators :=
  (@prepareDirectories sample_collaborators sample_world).2.

(** The same feed after its title is changed, the file name kept. *)
Definition sample_renamed_fs : FileSystem :=
  mkFileSystem
    (Some {[ "tech" := CategoryDirectory
                         {[ "a.json" := Json (mkSite "A, renamed" "https://a" 2 []) ]} ]})
    (Some ∅) (Some ∅) (Some ∅) (Some ∅) (Some ∅) (Some ∅) (Some ∅).

Definition sample_renamed : @World sample_collaborators :=
  @mkWorld sample_collaborators sample_renamed_fs 0%nat [].

(** The sample with no [contents] directory. *)
Definition sample_without_contents : @World sample_collaborators :=
  @mkWorld sample_collaborators
    (mkFileSystem None None None None None None None None) 0%nat [].

(** One entry under two categories: the same title and link, another
    author and date. *)
Definition sample_shared_fs : FileSystem :=
  mkFileSystem
    (Some {[ "news" := CategoryDirectory
                         {[ "n.json" := Json (mkSite "N" "https://n" 1
                                                [mkEntry "E1" "https://a/1" 300 "w"]) ]};
             "tech" := CategoryDirectory {[ "a.json" := Json sample_site ]} ]})
    (Some ∅) (Some ∅) (Some ∅) (Some ∅) (Some ∅) (Some ∅) (Some ∅).

Definition sample_shared : @World sample_collaborators :=
  @mkWorld sample_collaborators sample_shared_fs 0%nat [].

(** The sample with a feed file that is not JSON. *)
Definition sample_malformed : @World sample_collaborators :=
  @mkWorld sample_collaborators
    (mkFileSystem
       (Some {[ "tech" := CategoryDirectory {[ "a.json" := Malformed "<html>" ]} ]})
       None None None None None None (Some ∅)) 0%nat [].

(** A cache of the entries A, B and C next to the current entries B, C and
    D, as the previous run and this one left them. *)
Definition sample_record (t : string) (l : string) : EntryData :=
  mkEntryData (mkEntry t l 100 "x") "A" (createHash "a") t "tech".

Definition sample_current : gmap string (file EntryData) :=
  {[ "B.json" := Json (sample_record "B" "https://a/2");
     "C.json" := Json (sample_record "C" "https://a/3");
     "D.json" := Json (sample_record "D" "https://a/1") ]}.

Definition sample_cache : gmap string (file ReadabilityData) :=
  {[ "A.json" := Json (mkReadabilityData (sample_record "A" "https://a/0") "<p>a</p>");
     "B.json" := Json (mkReadabilityData (sample_record "B" "https://a/2") "<p>b</p>");
     "C.json" := Json (mkReadabilityData (sample_record "C" "https://a/3") "<p>c</p>") ]}.

Definition sample_reconcile : @World sample_collaborators :=
  @mkWorld sample_collaborators
    (mkFileSystem None None None None None (Some sample_current) (Some ∅)
       (Some sample_cache)) 0%nat [].

(** The entries B, D and C with an empty durable cache: B has no content,
    D has, C fails to load. *)
Definition sample_uncached : @World sample_collaborators :=
  @mkWorld sample_collaborators
    (mkFileSystem None None None None None (Some sample_current) (Some ∅) (Some ∅))
    0%nat [].

(** A browser whose every other release fails: the state tells whether the
    next call of [close] rejects. The fetches are those of the sample. *)
Definition sample_flaky : Collaborators :=
  {| Browser := bool;
     loadContent := fun json rejects =>
       ((@loadContent sample_collaborators json 0%nat).1, rejects);
     close := fun rejects =>
       (if rejects then Some (ErrorObject (mkError "Error" None "Target closed"))
        else None,
        negb rejects);
     minify := fun content => inr content;
     customDomain := "";
     GITHUB_REPOSITORY := Some "llun/feeds" |}.

(** The entries B, D and C with an empty durable cache before that browser;
    the loop comes to C first, then to B, then to D. *)
Definition sample_flaky_world (rejects : bool) : @World sample_flaky :=
  @mkWorld sample_flaky (@fs sample_collaborators sample_uncached) rejects [].

(** The sample in a workspace that has no durable cache yet. *)
Definition sample_first_run : @World sample_collaborators :=
  @mkWorld sample_collaborators
    (mkFileSystem
       (Some {[ "tech" := CategoryDirectory {[ "a.json" := Json sample_site ]} ]})
       None None None None None None None) 0%nat [].

(** Two categories with a feed file of the same name. *)
Definition sample_twins : @World sample_collaborators :=
  @mkWorld sample_collaborators
    (mkFileSystem
       (Some {[ "news" := CategoryDirectory
                            {[ "a.json" := Json (mkSite "N" "https://n" 5 []) ]};
                "tech" := CategoryDirectory {[ "a.json" := Json sample_site ]} ]})
       (Some ∅) (Some ∅) (Some ∅) (Some ∅) (Some ∅) (Some ∅) (Some ∅)) 0%nat [].

(** A category whose second feed file is not JSON. *)
Definition sample_half : @World sample_collaborators :=
  @mkWorld sample_collaborators
    (mkFileSystem
       (Some {[ "tech" := CategoryDirectory
                            {[ "a.json" := Json (mkSite "A" "https://a" 1 [sample_entry1]);
                               "b.json" := Malformed "<html>" ]} ]})
       (Some ∅) (Some ∅) (Some ∅) (Some ∅) (Some ∅) (Some ∅) (Some ∅)) 0%nat [].

(** A file next to the one category directory. *)
Definition sample_stray : @World sample_collaborators :=
  @mkWorld sample_collaborators
    (mkFileSystem
       (Some {[ "README.md" := RegularFile;
                "tech" := CategoryDirectory {[ "a.json" := Json sample_site ]} ]})
       (Some ∅) (Some ∅) (Some ∅) (Some ∅) (Some ∅) (Some ∅) (Some ∅)) 0%nat [].

(** ** Properties *)

Section Properties.
Context `{Collaborators}.

(** *** Reasoning about computations *)

Lemma bind_Return {A B} (m : M A) (k : A -> M B) w a w' :
  m w = (Return a, w') -> bind m k w = k a w'.
Proof. unfold bind. intros ->. reflexivity. Qed.

Lemma bind_Throw {A B} (m : M A) (k : A -> M B) w e w' :
  m w = (Throw e, w') -> bind m k w = (Throw e, w').
Proof. unfold bind. intros ->. reflexivity. Qed.

Lemma bind_inv {A B} (m : M A) (k : A -> M B) w r w' :
  bind m k w = (r, w') ->
  (exists a w1, m w = (Return a, w1) /\ k a w1 = (r, w'))
  \/ (exists e, m w = (Throw e, w') /\ r = Throw e).
Proof.
  unfold bind. destruct (m w) as [[a|e] w1]; intros Hk.
  - left. eauto.
  - right. inversion Hk; subst. eauto.
Qed.

Lemma tryCatch_inv {A} (m : M A) (h : thrown -> M A) w r w' :
  tryCatch m h w = (r, w') ->
  (exists a, m w = (Return a, w') /\ r = Return a)
  \/ (exists e w1, m w = (Throw e, w1) /\ h e w1 = (r, w')).
Proof.
  unfold tryCatch. destruct (m w) as [[a|e] w1]; intros Hk.
  - left. inversion Hk; subst. eauto.
  - right. eauto.
Qed.

Section Preserves.
Context (R : World -> World -> Prop) `{!PreOrder R}.

Lemma preserves_ret {A} (a : A) : preserves R (ret a).
Proof. intros w r w' [= _ <-]. reflexivity. Qed.

Lemma preserves_throw {A} e : preserves R (@throw _ A e).
Proof. intros w r w' [= _ <-]. reflexivity. Qed.

Lemma preserves_bind {A B} (m : M A) (k : A -> M B) :
  preserves R m -> (forall a, preserves R (k a)) -> preserves R (bind m k).
Proof.
  intros Hm Hk w r w' Hb.
  apply bind_inv in Hb as [(a & w1 & H1 & H2) | (e & H1 & _)].
  - etransitivity; [eapply Hm | eapply Hk]; eauto.
  - eapply Hm; eauto.
Qed.

Lemma preserves_tryCatch {A} (m : M A) (h : thrown -> M A) :
  preserves R m -> (forall e, preserves R (h e)) -> preserves R (tryCatch m h).
Proof.
  intros Hm Hh w r w' Hb.
  apply tryCatch_inv in Hb as [(a & H1 & _) | (e & w1 & H1 & H2)].
  - eapply Hm; eauto.
  - etransitivity; [eapply Hm | eapply Hh]; eauto.
Qed.

Lemma preserves_forOf {A S} (xs : list A) (s : S) (body : S -> A -> M S) :
  (forall s x, x ∈ xs -> preserves R (body s x)) -> preserves R (forOf xs s body).
Proof.
  revert s. induction xs as [|x xs IH]; intros s Hbody; simpl.
  - apply preserves_ret.
  - apply preserves_bind.
    + apply Hbody. left.
    + intros s'. apply IH. intros s0 y Hy. apply Hbody. by right.
Qed.

Lemma preserves_Array_map {A B} (f : A -> M B) (xs : list A) :
  (forall x, x ∈ xs -> preserves R (f x)) -> preserves R (Array_map f xs).
Proof.
  induction xs as [|x xs IH]; intros Hf; simpl.
  - apply preserves_ret.
  - apply preserves_bind; [apply Hf; left|].
    intros y. apply preserves_bind.
    + apply IH. intros z Hz. apply Hf. by right.
    + intros ys. apply preserves_ret.
Qed.
End Preserves.

Lemma readonly_preserves {A} (R : World -> World -> Prop) `{!Reflexive R} (m : M A) :
  readonly m -> preserves R m.
Proof. intros Hm w r w' Hrun. apply Hm in Hrun as ->. reflexivity. Qed.

Lemma readdirSync_readonly {A} (s : store A) : readonly (readdirSync s).
Proof. intros w r w'. unfold readdirSync. destruct (get s (fs w)); by intros [= _ <-]. Qed.
Lemma readFileSync_readonly {A} (s : store A) f : readonly (readFileSync s f).
Proof.
  intros w r w'. unfold readFileSync.
  destruct (get s (fs w) ≫= _); by intros [= _ <-].
Qed.
Lemma statSync_readonly {A} (s : store A) f : readonly (statSync s f).
Proof.
  intros w r w'. unfold statSync.
  destruct (get s (fs w) ≫= _); by intros [= _ <-].
Qed.
Lemma statSync_feeds_readonly : readonly statSync_feeds.
Proof.
  intros w r w'. unfold statSync_feeds.
  destruct (feedsContent (fs w)); by intros [= _ <-].
Qed.
Lemma readdirSync_feeds_readonly : readonly readdirSync_feeds.
Proof.
  intros w r w'. unfold readdirSync_feeds.
  destruct (feedsContent (fs w)); by intros [= _ <-].
Qed.
Lemma readdirSync_category_readonly c : readonly (readdirSync_category c).
Proof.
  intros w r w'. unfold readdirSync_category.
  destruct (feedsContent (fs w) ≫= _) as [[]|]; by intros [= _ <-].
Qed.
Lemma readFileSync_category_readonly c f : readonly (readFileSync_category c f).
Proof.
  intros w r w'. unfold readFileSync_category.
  destruct (feedsContent (fs w) ≫= _) as [[d|]|]; [destruct (d !! f)|..];
    by intros [= _ <-].
Qed.
Lemma JSON_parse_readonly {A} (text : file A) : readonly (JSON_parse text).
Proof. intros w r w'. destruct text; by intros [= _ <-]. Qed.
Lemma htmlmin_minify_readonly c : readonly (htmlmin_minify c).
Proof. intros w r w'. unfold htmlmin_minify. destruct (minify c); by intros [= _ <-]. Qed.

#[local] Instance same_preorder {X} (g : FileSystem -> X) : PreOrder (same g).
Proof. split; [by intros w | intros w1 w2 w3; unfold same; congruence]. Qed.

Lemma emit_same {X} (g : FileSystem -> X) e : preserves (same g) (emit e).
Proof. by intros w r w' [= _ <-]. Qed.

Lemma await_loadContent_same {X} (g : FileSystem -> X) f json :
  preserves (same g) (await_loadContent f json).
Proof.
  intros w r w'. unfold await_loadContent.
  destruct (loadContent json (page w)) as [[e|c] b]; by intros [= _ <-].
Qed.

Lemma await_close_same {X} (g : FileSystem -> X) : preserves (same g) await_close.
Proof.
  intros w r w'. unfold await_close.
  destruct (close (page w)) as [[e|] b]; by intros [= _ <-].
Qed.

Lemma writeFileSync_same {X A} (g : FileSystem -> X) (s : store A) f data :
  (forall d fs, g (set s d fs) = g fs) -> preserves (same g) (writeFileSync s f data).
Proof.
  intros Hg w r w'. unfold writeFileSync.
  destruct (get s (fs w)); intros [= _ <-]; unfold same; simpl; by rewrite ?Hg.
Qed.

Lemma unlinkSync_same {X A} (g : FileSystem -> X) (s : store A) f :
  (forall d fs, g (set s d fs) = g fs) -> preserves (same g) (unlinkSync s f).
Proof.
  intros Hg w r w'. unfold unlinkSync.
  destruct (get s (fs w)) as [d|]; [destruct (d !! f)|];
    intros [= _ <-]; unfold same; simpl; by rewrite ?Hg.
Qed.

Lemma ensure_same {X A} (g : FileSystem -> X) (s : store A) f :
  (forall d fs, g (set s d fs) = g fs) -> g (ensure s f) = g f.
Proof. intros Hg. unfold ensure. destruct (get s f); [done | apply Hg]. Qed.

Lemma mkdirSync_same {X A} (g : FileSystem -> X) (s : store A) :
  (forall d fs, g (set s d fs) = g fs) ->
  (forall d fs, g (set DATA_PATH d fs) = g fs) ->
  preserves (same g) (mkdirSync s).
Proof.
  intros Hg Hdata w r w'. unfold mkdirSync. intros [= _ <-]. unfold same.
  cbn [fs with_fs]. rewrite ensure_same by done.
  destruct (under_data s); [by rewrite ensure_same | done].
Qed.

Ltac frame_step :=
  lazymatch goal with
  | |- preserves ?R (ret _) => apply (preserves_ret R)
  | |- preserves ?R (throw _) => apply (preserves_throw R)
  | |- preserves ?R (bind _ _) => apply (preserves_bind R); [|intros ?]
  | |- preserves ?R (tryCatch _ _) => apply (preserves_tryCatch R); [|intros ?]
  | |- preserves ?R (forOf _ _ _) => apply (preserves_forOf R); intros ? ? _
  | |- preserves ?R (Array_map _ _) => apply (preserves_Array_map R); intros ? _
  | |- preserves _ (if ?b then _ else _) => destruct b
  | |- preserves _ (emit _) => apply emit_same
  | |- preserves _ (console_log _) => apply emit_same
  | |- preserves _ (console_error _) => apply emit_same
  | |- preserves _ (core_setFailed _) => apply emit_same
  | |- preserves _ (await_loadContent _ _) => apply await_loadContent_same
  | |- preserves _ await_close => apply await_close_same
  | |- preserves _ (writeFileSync _ _ _) => apply writeFileSync_same; intros; reflexivity
  | |- preserves _ (unlinkSync _ _) => apply unlinkSync_same; intros; reflexivity
  | |- preserves _ (mkdirSync _) => apply mkdirSync_same; intros; reflexivity
  | |- preserves ?R _ =>
      apply (readonly_preserves R);
      first [ apply readdirSync_readonly | apply readFileSync_readonly
            | apply statSync_readonly | apply statSync_feeds_readonly
            | apply readdirSync_feeds_readonly | apply readdirSync_category_readonly
            | apply readFileSync_category_readonly | apply JSON_parse_readonly
            | apply htmlmin_minify_readonly ]
  end.
Ltac frame := repeat frame_step.


(** *** The date-descending sort (lines 220, 253 and 352) *)

Lemma sort_insert_perm {A} (cmp : A -> A -> Z) x (l : list A) :
  sort_insert cmp x l ≡ₚ x :: l.
Proof.
  induction l as [|y l IH]; simpl; [done|].
  destruct (cmp x y <=? 0); [done|].
  rewrite IH. apply Permutation_swap.
Qed.

Lemma Array_sort_perm {A} (cmp : A -> A -> Z) (l : list A) :
  Array_sort cmp l ≡ₚ l.
Proof.
  induction l as [|x l IH]; simpl; [done|].
  rewrite sort_insert_perm. by f_equiv.
Qed.

Lemma sort_insert_sorted x l :
  Sorted newerFirst l -> Sorted newerFirst (sort_insert byDateDescending x l).
Proof.
  induction 1 as [|y l Hl IH Hhd]; simpl.
  - by repeat constructor.
  - unfold byDateDescending at 1.
    destruct (Z.leb_spec (se_date y - se_date x) 0) as [Hle|Hgt].
    + constructor; [by constructor|]. constructor. unfold newerFirst. lia.
    + constructor; [done|].
      destruct l as [|z l]; simpl.
      * constructor. unfold newerFirst. lia.
      * unfold byDateDescending at 1.
        destruct (se_date z - se_date x <=? 0); constructor.
        -- unfold newerFirst. lia.
        -- by inversion Hhd.
Qed.

Lemma Array_sort_sorted l : Sorted newerFirst (Array_sort byDateDescending l).
Proof.
  induction l as [|x l IH]; simpl; [constructor|].
  by apply sort_insert_sorted.
Qed.

Lemma sort_insert_same_date d x l :
  filter (fun e => se_date e = d) (sort_insert byDateDescending x l)
  = filter (fun e => se_date e = d) (x :: l).
Proof.
  induction l as [|y l IH]; simpl; [done|].
  unfold byDateDescending at 1.
  destruct (Z.leb_spec (se_date y - se_date x) 0) as [Hle|Hgt]; [done|].
  rewrite !filter_cons in *.
  destruct (decide (se_date y = d)) as [Hy|Hy];
    destruct (decide (se_date x = d)) as [Hx|Hx]; try lia;
    rewrite IH; reflexivity.
Qed.

(** The sort with the comparison by date keeps entries of equal date in
    the order they had. *)
Lemma Array_sort_stable (l : list SiteEntryData) :
  stablySorted l (Array_sort byDateDescending l).
Proof.
  split; [apply Array_sort_perm|]. split; [apply Array_sort_sorted|].
  intros d. induction l as [|x l IH]; simpl; [done|].
  rewrite sort_insert_same_date, !filter_cons, IH. reflexivity.
Qed.

(** *** The entry materializer (lines 151-169) *)

Lemma createEntryData_returns category siteTitle siteHash e w d :
  entriesData (fs w) = Some d ->
  let data := mkEntryData e siteTitle siteHash
                (createHash (title e +:+ "," +:+ link e)) category in
  createEntryData category siteTitle siteHash e w
  = (Return data,
     with_fs (set ENTRIES_DATA_PATH
                (Some (<[entryHash data +:+ dot_json := Json data]> d)) (fs w)) w).
Proof.
  intros Hd. unfold createEntryData, bind, writeFileSync, ret. simpl.
  rewrite Hd. reflexivity.
Qed.

Lemma createEntryData_inv category siteTitle siteHash e w r w' :
  createEntryData category siteTitle siteHash e w = (r, w') ->
  let data := mkEntryData e siteTitle siteHash
                (createHash (title e +:+ "," +:+ link e)) category in
  (exists d, entriesData (fs w) = Some d /\ r = Return data
     /\ w' = with_fs (set ENTRIES_DATA_PATH
                (Some (<[entryHash data +:+ dot_json := Json data]> d)) (fs w)) w)
  \/ (entriesData (fs w) = None /\ w' = w /\ exists e, r = Throw (ErrorObject e)).
Proof.
  destruct (entriesData (fs w)) as [d|] eqn:Hd.
  - rewrite (createEntryData_returns _ _ _ _ _ d Hd). intros [= <- <-]. left. eauto.
  - unfold createEntryData, bind, writeFileSync, ret. simpl. rewrite Hd.
    intros [= <- <-]. right. eauto.
Qed.

(** C1. The identifier of a materialized entry is the hash of its title,
    a comma and its link; the record is written to the entries store
    under that identifier followed by [.json]; and any other entry of
    the same title and link, whatever its author, date, site or category,
    gets the same identifier. *)
Theorem entry_identifier_is_hash_of_title_and_link
  category siteTitle siteHash (e : Entry) w data w' :
  createEntryData category siteTitle siteHash e w = (Return data, w') ->
  data = mkEntryData e siteTitle siteHash
           (createHash (title e +:+ "," +:+ link e)) category
  /\ entriesData (fs w') ≫= (.!! (entryHash data +:+ ".json")) = Some (Json data)
  /\ forall category2 siteTitle2 siteHash2 (e2 : Entry) w2 data2 w2',
       createEntryData category2 siteTitle2 siteHash2 e2 w2 = (Return data2, w2') ->
       title e2 = title e -> link e2 = link e ->
       entryHash data2 = entryHash data.
Proof.
  intros Hrun.
  apply createEntryData_inv in Hrun as [(d & Hd & [= ->] & ->)|(_ & _ & ? & [=])].
  split; [reflexivity|]. split.
  - cbn [fs with_fs set ENTRIES_DATA_PATH entriesData mbind option_bind].
    apply lookup_insert_eq.
  - intros c2 st2 sh2 e2 w2 data2 w2' Hrun2 Ht Hl.
    apply createEntryData_inv in Hrun2 as [(d2 & Hd2 & [= ->] & ->)|(_ & _ & ? & [=])].
    cbn [entryHash]. by rewrite Ht, Hl.
Qed.

(** *** The site materializer (lines 179-229) *)

Lemma createEntryData_feeds category st sh e :
  preserves (same feedsContent) (createEntryData category st sh e).
Proof. unfold createEntryData. frame. Qed.

Lemma createSiteData_feeds category result site :
  preserves (same feedsContent) (createSiteData category result site).
Proof. unfold createSiteData, createEntryData. frame. Qed.

Lemma recordAll_app l1 l2 d : recordAll (l1 ++ l2) d = recordAll l2 (recordAll l1 d).
Proof. apply foldl_app. Qed.

Lemma materialize_entries category st sh es w l w' :
  Array_map (fun e =>
      bind (createEntryData category st sh e) (fun entryData =>
        ret (mkSiteEntryData (title entryData) (link entryData) (date entryData)
               (author entryData) category st sh (entryHash entryData)))) es w
  = (Return l, w') ->
  l = List.map (fun e => summary (mkEntryData e st sh (identifier e) category)) es
  /\ entriesData (fs w')
     = recordAll (List.map (fun e => mkEntryData e st sh (identifier e) category) es)
         <$> entriesData (fs w).
Proof.
  revert w l. induction es as [|e es IH]; intros w l Hrun; simpl in Hrun.
  - injection Hrun as <- <-. split; [done|]. by destruct (entriesData (fs w)).
  - apply bind_inv in Hrun as [(y & w1 & Hy & Hrun)|(? & _ & [=])].
    apply bind_inv in Hy as [(data & w0 & Hdata & Hy)|(? & _ & [=])].
    injection Hy as <- <-.
    apply createEntryData_inv in Hdata as [(d & Hd & [= ->] & ->)|(_ & _ & ? & [=])].
    apply bind_inv in Hrun as [(ys & w2 & Hys & Hrun)|(? & _ & [=])].
    injection Hrun as <- <-.
    apply IH in Hys as [-> Hstore]. split; [done|].
    rewrite Hstore, Hd. reflexivity.
Qed.

Lemma readFileSync_category_inv category site w c w' :
  readFileSync_category category site w = (Return c, w') ->
  w' = w /\ siteFile (fs w) category site = Some c.
Proof.
  unfold readFileSync_category, siteFile.
  destruct (feedsContent (fs w) ≫= _) as [[d|]|]; [destruct (d !! site)|..];
    by intros [= <- <-].
Qed.

Lemma JSON_parse_inv {A} (text : file A) w (doc : A) w' :
  JSON_parse text w = (Return doc, w') -> w' = w /\ text = Json doc.
Proof. destruct text; by intros [= <- <-]. Qed.

Lemma createSiteData_inv category result site w r w' :
  createSiteData category result site w = (Return r, w') ->
  exists json,
    siteFile (fs w) category site = Some (Json json)
    /\ r = result ++ [siteDataOf category site json]
    /\ entriesData (fs w')
       = recordAll (entriesOf category site json) <$> entriesData (fs w).
Proof.
  unfold createSiteData. intros Hrun.
  apply bind_inv in Hrun as [(c & w1 & Hc & Hrun)|(? & _ & [=])].
  apply readFileSync_category_inv in Hc as [-> Hc].
  apply bind_inv in Hrun as [(json & w1 & Hjson & Hrun)|(? & _ & [=])].
  apply JSON_parse_inv in Hjson as [-> ->].
  apply bind_inv in Hrun as [(es & w1 & Hes & Hrun)|(? & _ & [=])].
  apply materialize_entries in Hes as [-> Hstore].
  apply bind_inv in Hrun as [([] & w2 & Hwrite & Hrun)|(? & _ & [=])].
  injection Hrun as <- <-.
  exists json. split; [done|]. split.
  - unfold siteDataOf, entriesOf. by rewrite map_map.
  - assert (Hsame : same entriesData w1 w2).
    { revert Hwrite. by apply writeFileSync_same. }
    rewrite <- Hsame, Hstore. reflexivity.
Qed.

Lemma siteRecords_feeds f f' category site :
  feedsContent f = feedsContent f' ->
  siteRecords f category site = siteRecords f' category site.
Proof. unfold siteRecords, siteFile. by intros ->. Qed.

Lemma createSitesData_loop category sites result w r w' :
  forOf sites result (createSiteData category) w = (Return r, w') ->
  List.map sd_siteHash (List.map site r)
  = List.map sd_siteHash (List.map site result)
    ++ List.map (fun s => createHash (baseName s)) sites
  /\ entriesData (fs w')
     = recordAll (List.concat (List.map (siteRecords (fs w) category) sites))
         <$> entriesData (fs w).
Proof.
  revert result w. induction sites as [|s sites IH]; intros result w Hrun; simpl in Hrun.
  - injection Hrun as <- <-. rewrite app_nil_r. split; [done|].
    by destruct (entriesData (fs w)).
  - apply bind_inv in Hrun as [(r1 & w1 & Hs & Hrun)|(? & _ & [=])].
    pose proof (createSiteData_feeds _ _ _ _ _ _ Hs) as Hfeeds.
    apply createSiteData_inv in Hs as (json & Hfile & -> & Hstore).
    apply IH in Hrun as [Hhashes Hstore']. split.
    + rewrite Hhashes, !map_app, <- app_assoc. reflexivity.
    + rewrite Hstore', Hstore. cbn [List.map List.concat].
      unfold siteRecords at 2. rewrite Hfile.
      rewrite (map_ext_in _ (siteRecords (fs w) category)).
      * destruct (entriesData (fs w)) as [d|]; [|done].
        cbn [fmap option_fmap option_map]. by rewrite recordAll_app.
      * intros s' _. symmetry. by apply siteRecords_feeds.
Qed.

Lemma string_length_app s1 s2 :
  String.length (s1 +:+ s2) = (String.length s1 + String.length s2)%nat.
Proof. induction s1 as [|c s1 IH]; simpl; [done|]. by rewrite IH. Qed.

Lemma baseName_of_json_file base : baseName (base +:+ ".json") = base.
Proof.
  unfold baseName, substring0, strlen, dot_json.
  replace (Z.to_nat _) with (String.length base).
  - induction base as [|c base IH]; simpl; [done|]. by rewrite IH.
  - rewrite string_length_app. simpl. lia.
Qed.

(** C8. The site identifier is the hash of the name of the site's file
    without its last five characters, its [.json] suffix: two runs of the
    site materializer over the same file names give the same identifiers,
    whatever the files hold (title, link, update time, entries) and
    whatever the category. *)
Theorem site_identifier_depends_on_file_name_only
  category1 category2 sites w1 w2 r1 r2 w1' w2' :
  createSitesData category1 sites w1 = (Return r1, w1') ->
  createSitesData category2 sites w2 = (Return r2, w2') ->
  List.map sd_siteHash (List.map site r1)
  = List.map (fun s => createHash (baseName s)) sites
  /\ List.map sd_siteHash (List.map site r2) = List.map sd_siteHash (List.map site r1)
  /\ forall base, baseName (base +:+ ".json") = base.
Proof.
  intros Hrun1 Hrun2.
  apply createSitesData_loop in Hrun1 as [Hh1 _].
  apply createSitesData_loop in Hrun2 as [Hh2 _].
  simpl in Hh1, Hh2. rewrite Hh1, Hh2.
  split; [done|]. split; [done|]. apply baseName_of_json_file.
Qed.

(** *** The reconciler: eviction (lines 259-268) *)

Lemma Set_add_elem s x y : y ∈ Set_add s x <-> y ∈ s \/ y = x.
Proof.
  unfold Set_add. destruct (decide (x ∈ s)).
  - split; [auto|]. intros [?| ->]; done.
  - rewrite elem_of_app, list_elem_of_singleton. done.
Qed.

Lemma Set_add_NoDup s x : NoDup s -> NoDup (Set_add s x).
Proof.
  unfold Set_add. intros Hs. destruct (decide (x ∈ s)); [done|].
  apply NoDup_app. split_and!; [done| |apply NoDup_singleton].
  intros y Hy ->%list_elem_of_singleton. done.
Qed.

Lemma Set_new_spec xs :
  NoDup (Set_new xs) /\ forall y, y ∈ Set_new xs <-> y ∈ xs.
Proof.
  unfold Set_new.
  assert (Hgen : forall s, NoDup s ->
            NoDup (foldl Set_add s xs)
            /\ forall y, y ∈ foldl Set_add s xs <-> y ∈ s \/ y ∈ xs).
  { induction xs as [|x xs IH]; intros s Hs; simpl.
    - split; [done|]. intros y. rewrite elem_of_nil. tauto.
    - destruct (IH (Set_add s x) (Set_add_NoDup _ _ Hs)) as [Hnd Hin].
      split; [done|]. intros y. rewrite Hin, Set_add_elem, elem_of_cons. tauto. }
  destruct (Hgen [] (NoDup_nil_2)) as [Hnd Hin]. split; [done|].
  intros y. rewrite Hin, elem_of_nil. tauto.
Qed.

Lemma Set_delete_all_spec s xs :
  NoDup s ->
  NoDup (foldl Set_delete s xs)
  /\ forall y, y ∈ foldl Set_delete s xs <-> y ∈ s /\ y ∉ xs.
Proof.
  revert s. induction xs as [|x xs IH]; intros s Hs; simpl.
  - split; [done|]. intros y. rewrite elem_of_nil. tauto.
  - destruct (IH (Set_delete s x)) as [Hnd Hin].
    { unfold Set_delete. by apply NoDup_filter. }
    split; [done|]. intros y.
    rewrite Hin. unfold Set_delete. rewrite list_elem_of_filter, not_elem_of_cons.
    tauto.
Qed.

Lemma evictOldCaches_spec previousSet w (cache : gmap string (file ReadabilityData)) :
  workspaceReadabilityCache (fs w) = Some cache ->
  NoDup previousSet ->
  (forall x, x ∈ previousSet -> is_Some (cache !! x)) ->
  exists w' cache',
    evictOldCaches previousSet w = (Return tt, w')
    /\ workspaceReadabilityCache (fs w') = Some cache'
    /\ forall x, cache' !! x = if decide (x ∈ previousSet) then None else cache !! x.
Proof.
  unfold evictOldCaches.
  revert w cache. induction previousSet as [|x xs IH]; intros w cache Hcache Hnd Hin.
  - exists w, cache. split; [done|]. split; [done|]. intros x.
    destruct (decide (x ∈ [])) as [[]%elem_of_nil|]; done.
  - apply NoDup_cons in Hnd as [Hx Hnd].
    destruct (Hin x) as [f Hf]; [left|].
    set (w1 := with_fs (set WORKSPACE_READABILITY_CACHE_PATH
                          (Some (delete x cache)) (fs w)) w).
    assert (Hstep : evictStep tt x w = (Return tt, w1)).
    { unfold evictStep, unlinkSync. simpl. by rewrite Hcache, Hf. }
    destruct (IH w1 (delete x cache)) as (w' & cache' & Hrun & Hcache' & Hlookup);
      [done|done| |].
    { intros y Hy. rewrite lookup_delete_ne; [apply Hin; by right|].
      intros ->. done. }
    exists w', cache'. split.
    { simpl. by rewrite (bind_Return _ _ _ _ _ Hstep). }
    split; [done|]. intros y. rewrite Hlookup.
    destruct (decide (y = x)) as [->|Hne].
    + rewrite lookup_delete_eq.
      destruct (decide (x ∈ xs)); destruct (decide (x ∈ x :: xs)) as [|[]]; try done.
      left.
    + rewrite lookup_delete_ne by done.
      destruct (decide (y ∈ xs)); destruct (decide (y ∈ x :: xs)) as [Hy|Hy];
        try done.
      * destruct Hy. by right.
      * apply elem_of_cons in Hy as [?|?]; done.
Qed.

Lemma fillCache_workspace entries :
  preserves (same workspaceReadabilityCache) (fillCache entries).
Proof. unfold fillCache, fillStep, fillEntry, enrich. frame. Qed.

Lemma readdirSync_names {A} (d : gmap string A) x :
  x ∈ (map_to_list d).*1 <-> is_Some (d !! x).
Proof.
  rewrite list_elem_of_fmap. split.
  - intros ([k v] & -> & Hkv). apply elem_of_map_to_list in Hkv. eauto.
  - intros [v Hv]. exists (x, v). split; [done|]. by apply elem_of_map_to_list.
Qed.

(** C2. The eviction step deletes from the durable cache exactly the
    files whose name is not the name of a file of the entries store: a
    cache file of a current entry is left as it was, and no other cache
    file is left. *)
Theorem eviction_removes_exactly_stale_cache_files
  w (current : gmap string (file EntryData))
  (cache : gmap string (file ReadabilityData)) r w' :
  entriesData (fs w) = Some current ->
  workspaceReadabilityCache (fs w) = Some cache ->
  loadEntryWithPuppeteer w = (r, w') ->
  exists cache',
    workspaceReadabilityCache (fs w') = Some cache'
    /\ (forall x, is_Some (current !! x) -> cache' !! x = cache !! x)
    /\ (forall x, current !! x = None -> cache' !! x = None).
Proof.
  intros Hcurrent Hcache Hrun. unfold loadEntryWithPuppeteer in Hrun.
  rewrite (bind_Return _ _ _ ((map_to_list current).*1) w) in Hrun
    by (unfold readdirSync; simpl; by rewrite Hcurrent).
  rewrite (bind_Return _ _ _ ((map_to_list cache).*1) w) in Hrun
    by (unfold readdirSync; simpl; by rewrite Hcache).
  set (previousSet := foldl Set_delete (Set_new (map_to_list cache).*1)
                        (map_to_list current).*1) in Hrun.
  apply bind_inv in Hrun as [([] & w1 & Hlog & Hrun)|(? & [=] & _)].
  injection Hlog as <-.
  destruct (Set_new_spec (map_to_list cache).*1) as [Hnd0 Hin0].
  destruct (Set_delete_all_spec _ (map_to_list current).*1 Hnd0) as [Hnd Hin].
  fold previousSet in Hnd, Hin.
  destruct (evictOldCaches_spec previousSet
              (mkWorld (fs w) (page w)
                 (output w ++ [ConsoleLog ("Delete old caches " +:+ pretty (length previousSet))]))
              cache)
    as (w2 & cache' & Hevict & Hcache' & Hlookup); [done|done| |].
  { intros x [Hx _]%Hin. by apply readdirSync_names, Hin0. }
  rewrite (bind_Return _ _ _ _ _ Hevict) in Hrun.
  apply fillCache_workspace in Hrun. unfold same in Hrun.
  exists cache'. rewrite <- Hrun. split; [done|]. split.
  - intros x Hx. rewrite Hlookup. destruct (decide (x ∈ previousSet)) as [Hp|]; [|done].
    apply Hin in Hp as [_ []]. by apply readdirSync_names.
  - intros x Hx. rewrite Hlookup. destruct (decide (x ∈ previousSet)) as [|Hp]; [done|].
    destruct (cache !! x) eqn:Hc; [|done]. destruct Hp. apply Hin. split.
    + apply Hin0, readdirSync_names. eauto.
    + rewrite readdirSync_names, Hx. by intros [? [=]].
Qed.

(** *** The reconciler: the fill loop (lines 269-320) *)

Lemma enrich_spec f h json w :
  enrich f h json w
  = (match handlerErrorOf json w with
     | None => Return tt
     | Some error => Throw error
     end,
     mkWorld
       (match attemptOf json w, readabilityCache (fs w) with
        | Enriched minified, Some d =>
            set READABILITY_CACHE_PATH
              (Some (<[h +:+ dot_json := mkReadabilityData json minified]> d)) (fs w)
        | _, _ => fs w
        end)
       (if blockReleaseFails json w
        then (close (close (loadContent json (page w)).2).2).2
        else (close (loadContent json (page w)).2).2)
       (output w ++ LoadContent f json
          :: match attemptOf json w with
             | Enriched _ => []
             | NoContent => [ConsoleLog (h +:+ " - Skip " +:+ link json)]
             | Failed => [ConsoleLog (h +:+ " - Fail to load " +:+ link json)]
             end
          ++ Close
          :: if blockReleaseFails json w
             then [ConsoleLog (h +:+ " - Fail to load " +:+ link json); Close]
             else [])).
Proof.
  unfold handlerErrorOf, blockReleaseFails, enrich, attemptOf, tryCatch, bind,
    await_loadContent.
  destruct (loadContent json (page w)) as [[e|c] b]; cbn [fst snd].
  - unfold console_log, emit, await_close. cbn [fs page output].
    destruct (close b) as [[e1|] b1]; cbn [fst snd]; by rewrite <- !app_assoc.
  - destruct (falsy c); cbn [fst snd].
    + unfold console_log, emit, await_close. cbn [fs page output].
      destruct (close b) as [[e1|] b1]; cbn [fst snd fs page output].
      * destruct (close b1) as [[e2|] b2]; cbn [fst snd]; by rewrite <- !app_assoc.
      * by rewrite <- !app_assoc.
    + unfold htmlmin_minify. destruct (minify (default "" c)) as [e|m]; cbn [fst snd].
      * unfold throw, console_log, emit, await_close. cbn [fs page output].
        destruct (close b) as [[e1|] b1]; cbn [fst snd]; by rewrite <- !app_assoc.
      * unfold ret, writeFileSync. cbn [fs page output get READABILITY_CACHE_PATH].
        destruct (readabilityCache (fs w)) as [d|]; cbn [fst snd].
        -- unfold console_log, emit, await_close, with_fs. cbn [fs page output].
           destruct (close b) as [[e1|] b1]; cbn [fst snd fs page output].
           ++ destruct (close b1) as [[e2|] b2]; cbn [fst snd];
                by rewrite <- !app_assoc.
           ++ by rewrite <- !app_assoc.
        -- unfold console_log, emit, await_close. cbn [fs page output].
           destruct (close b) as [[e1|] b1]; cbn [fst snd]; by rewrite <- !app_assoc.
Qed.

Lemma fillEntry_cached f w :
  is_Some (workspaceReadabilityCache (fs w) ≫= (.!! (cacheFile f))) ->
  fillEntry f w
  = (Return tt,
     logged w [ConsoleLog (slice0 f (strlen f - strlen dot_json)
                           +:+ " - Readability loaded, skip")]).
Proof.
  intros [c Hc]. unfold fillEntry, bind, tryCatch, statSync. simpl.
  unfold cacheFile in Hc. rewrite Hc. reflexivity.
Qed.

Lemma fillEntry_fresh f w :
  workspaceReadabilityCache (fs w) ≫= (.!! (cacheFile f)) = None ->
  fillEntry f w
  = match entriesData (fs w) ≫= (.!! f) with
    | Some (Json json) =>
        enrich f (slice0 f (strlen f - strlen dot_json)) json
          (logged w [ConsoleLog (slice0 f (strlen f - strlen dot_json)
                                 +:+ " - Load " +:+ link json)])
    | Some (Malformed _) => (Throw (SyntaxError "Unexpected token in JSON"), w)
    | None => (Throw (ENOENT "open" (path ENTRIES_DATA_PATH +:+ "/" +:+ f)), w)
    end.
Proof.
  intros Hc. unfold fillEntry, bind, tryCatch, statSync. simpl.
  unfold cacheFile in Hc. rewrite Hc. simpl.
  unfold readFileSync. simpl.
  destruct (entriesData (fs w) ≫= _) as [[json|text]|]; reflexivity.
Qed.

Lemma fillEntry_workspace f :
  preserves (same workspaceReadabilityCache) (fillEntry f).
Proof. unfold fillEntry, enrich. frame. Qed.

Lemma fillEntry_entries f : preserves (same entriesData) (fillEntry f).
Proof. unfold fillEntry, enrich. frame. Qed.

Lemma protocol_app q t1 t2 :
  foldl protocol q (t1 ++ t2) = foldl protocol (foldl protocol q t1) t2.
Proof. apply foldl_app. Qed.

(** What one pass through the body of the fill loop adds to the trace. *)
Lemma fillStep_trace g w r w' :
  fillStep tt g w = (r, w') ->
  exists t,
    output w' = output w ++ Iteration g :: t
    /\ foldl protocol (Some Released) t = Some Released
    /\ forall f json, LoadContent f json ∈ t ->
         f = g /\ workspaceReadabilityCache (fs w) ≫= (.!! (cacheFile g)) = None.
Proof.
  unfold fillStep, bind, emit. simpl.
  set (w0 := mkWorld (fs w) (page w) (output w ++ [Iteration g])).
  change (workspaceReadabilityCache (fs w)) with (workspaceReadabilityCache (fs w0)).
  destruct (workspaceReadabilityCache (fs w0) ≫= (.!! (cacheFile g))) as [c|] eqn:Hc.
  - rewrite fillEntry_cached by eauto. intros [= <- <-]. simpl.
    eexists. rewrite <- app_assoc. split; [reflexivity|]. split; [done|].
    intros f json [[=]|[]%elem_of_nil]%elem_of_cons.
  - rewrite fillEntry_fresh by done.
    destruct (entriesData (fs w0) ≫= _) as [[json|text]|].
    + rewrite enrich_spec. intros [= <- <-]. simpl.
      eexists. rewrite <- !app_assoc. simpl. split; [reflexivity|]. split.
      * destruct (attemptOf json _), (blockReleaseFails json _); reflexivity.
      * intros f j Hin. split; [|done].
        apply elem_of_cons in Hin as [[=]|Hin].
        apply elem_of_cons in Hin as [[= -> _]|Hin]; [done|].
        destruct (attemptOf json _), (blockReleaseFails json _); simpl in Hin;
          repeat (apply elem_of_cons in Hin as [[=]|Hin]);
          by apply elem_of_nil in Hin.
    + intros [= <- <-]. exists []. simpl. split; [done|]. split; [done|].
      intros f j []%elem_of_nil.
    + intros [= <- <-]. exists []. simpl. split; [done|]. split; [done|].
      intros f j []%elem_of_nil.
Qed.

Lemma fillStep_workspace g : preserves (same workspaceReadabilityCache) (fillStep tt g).
Proof. unfold fillStep, fillEntry, enrich. frame. Qed.

(** C3. An entry whose cache record is in the durable cache when the fill
    loop starts is not fetched by the loop, and the loop leaves the durable
    cache, that record included, as it was. *)
Theorem cached_entries_are_not_fetched_again entries w f :
  is_Some (workspaceReadabilityCache (fs w) ≫= (.!! (cacheFile f))) ->
  (forall json, LoadContent f json ∈ output (fillCache entries w).2 ->
                LoadContent f json ∈ output w)
  /\ workspaceReadabilityCache (fs (fillCache entries w).2)
     = workspaceReadabilityCache (fs w).
Proof.
  intros Hcached. split.
  - unfold fillCache. revert w Hcached.
    induction entries as [|g entries IH]; intros w Hcached json; simpl; [done|].
    destruct (fillStep tt g w) as [[[]|e] w1] eqn:Hstep.
    + rewrite (bind_Return _ _ _ _ _ Hstep).
      pose proof (fillStep_workspace _ _ _ _ Hstep) as Hsame. unfold same in Hsame.
      intros Hin. apply IH in Hin; [|by rewrite <- Hsame].
      apply fillStep_trace in Hstep as (t & Ht & _ & Htags).
      rewrite Ht in Hin. apply elem_of_app in Hin as [Hin|Hin]; [done|].
      apply elem_of_cons in Hin as [[=]|Hin].
      apply Htags in Hin as [-> Hnone]. rewrite Hnone in Hcached. by destruct Hcached.
    + rewrite (bind_Throw _ _ _ _ _ Hstep). simpl.
      apply fillStep_trace in Hstep as (t & Ht & _ & Htags).
      rewrite Ht. intros Hin. apply elem_of_app in Hin as [Hin|Hin]; [done|].
      apply elem_of_cons in Hin as [[=]|Hin].
      apply Htags in Hin as [-> Hnone]. rewrite Hnone in Hcached. by destruct Hcached.
  - symmetry. destruct (fillCache entries w) as [r w'] eqn:Hrun.
    by apply fillCache_workspace in Hrun.
Qed.

Lemma fillCache_trace entries w :
  exists t,
    output (fillCache entries w).2 = output w ++ t
    /\ releasedAfterEachFetch t.
Proof.
  unfold fillCache, releasedAfterEachFetch. revert w.
  induction entries as [|g entries IH]; intros w; simpl.
  - exists []. by rewrite app_nil_r.
  - destruct (fillStep tt g w) as [[[]|e] w1] eqn:Hstep.
    + rewrite (bind_Return _ _ _ _ _ Hstep).
      apply fillStep_trace in Hstep as (t & Ht & Hok & _).
      destruct (IH w1) as (t' & Ht' & Hok').
      exists (Iteration g :: t ++ t'). split.
      * rewrite Ht', Ht, <- app_assoc. reflexivity.
      * simpl. by rewrite protocol_app, Hok.
    + rewrite (bind_Throw _ _ _ _ _ Hstep). simpl.
      apply fillStep_trace in Hstep as (t & Ht & Hok & _).
      exists (Iteration g :: t). split; done.
Qed.

(** C4. In the trace of the fill loop, and of the reconciler as a whole,
    the page is released after every fetch before the loop takes its next
    entry: no fetch and no start of an iteration happens while the page of
    an earlier fetch is held, and the page is released at the end. *)
Theorem page_is_released_after_every_fetch w :
  (forall entries, exists t,
      output (fillCache entries w).2 = output w ++ t /\ releasedAfterEachFetch t)
  /\ exists t,
      output (loadEntryWithPuppeteer w).2 = output w ++ t /\ releasedAfterEachFetch t.
Proof.
  split; [intros entries; apply fillCache_trace|].
  unfold loadEntryWithPuppeteer.
  destruct (readdirSync ENTRIES_DATA_PATH w) as [[entries|e] w1] eqn:H1.
  2:{ rewrite (bind_Throw _ _ _ _ _ H1). apply readdirSync_readonly in H1 as ->.
      exists []. by rewrite app_nil_r. }
  rewrite (bind_Return _ _ _ _ _ H1). apply readdirSync_readonly in H1 as ->.
  destruct (readdirSync WORKSPACE_READABILITY_CACHE_PATH w) as [[cacheEntries|e] w1] eqn:H2.
  2:{ rewrite (bind_Throw _ _ _ _ _ H2). apply readdirSync_readonly in H2 as ->.
      exists []. by rewrite app_nil_r. }
  rewrite (bind_Return _ _ _ _ _ H2). apply readdirSync_readonly in H2 as ->.
  set (previousSet := foldl Set_delete (Set_new cacheEntries) entries).
  set (msg := ConsoleLog ("Delete old caches " +:+ pretty (length previousSet))).
  unfold bind at 1. unfold console_log, emit. simpl. fold msg.
  set (w1 := mkWorld (fs w) (page w) (output w ++ [msg])).
  assert (Hquiet : forall l w0, output (evictOldCaches l w0).2 = output w0).
  { unfold evictOldCaches. induction l as [|x l IHl]; intros w0; simpl; [done|].
    unfold bind at 1. unfold evictStep at 1, unlinkSync.
    destruct (get WORKSPACE_READABILITY_CACHE_PATH (fs w0)) as [d|]; [|done].
    destruct (d !! x); [|done]. by rewrite IHl. }
  destruct (evictOldCaches previousSet w1) as [[[]|e] w2] eqn:Hevict.
  - rewrite (bind_Return _ _ _ _ _ Hevict).
    destruct (fillCache_trace entries w2) as (t & Ht & Hok).
    exists (msg :: t). split; [|done].
    rewrite Ht. pose proof (Hquiet previousSet w1) as Hq. rewrite Hevict in Hq.
    simpl in Hq. rewrite Hq. simpl. by rewrite <- app_assoc.
  - rewrite (bind_Throw _ _ _ _ _ Hevict).
    pose proof (Hquiet previousSet w1) as Hq. rewrite Hevict in Hq.
    exists [msg]. simpl in *. by rewrite Hq.
Qed.

Lemma forOf_app {A S} (xs ys : list A) (s : S) (body : S -> A -> M S) w :
  forOf (xs ++ ys) s body w = bind (forOf xs s body) (fun s' => forOf ys s' body) w.
Proof.
  revert s w. induction xs as [|x xs IH]; intros s w; simpl.
  - reflexivity.
  - unfold bind. unfold bind in IH.
    destruct (body s x w) as [[s'|e] w1]; [|done]. by rewrite IH.
Qed.

Lemma fillStep_entries g : preserves (same entriesData) (fillStep tt g).
Proof. unfold fillStep, fillEntry, enrich. frame. Qed.

(** The body of the loop at an entry that is read and not in the durable
    cache is the attempt, after the two lines it logs. *)
Lemma fillStep_fresh f w (json : EntryData) :
  entriesData (fs w) ≫= (.!! f) = Some (Json json) ->
  workspaceReadabilityCache (fs w) ≫= (.!! (cacheFile f)) = None ->
  fillStep tt f w
  = enrich f (slice0 f (strlen f - strlen dot_json)) json
      (logged w [Iteration f;
                 ConsoleLog (slice0 f (strlen f - strlen dot_json)
                             +:+ " - Load " +:+ link json)]).
Proof.
  intros Hjson Hfresh. unfold fillStep, bind, emit. cbn [fst snd].
  rewrite fillEntry_fresh by done. cbn [fs]. rewrite Hjson.
  unfold logged. cbn [fs page output]. by rewrite <- app_assoc.
Qed.

Lemma readable_same entries w w' :
  same entriesData w w' -> readable entries w -> readable entries w'.
Proof. unfold same, readable. intros <-. done. Qed.

Lemma fillCache_entries entries : preserves (same entriesData) (fillCache entries).
Proof. unfold fillCache, fillStep, fillEntry, enrich. frame. Qed.

(** C5. An entry the fill loop comes to, whose file is read and which is
    not in the durable cache: when the attempt at enriching it ends with no
    content or with an error (of the fetch, of the minifier or of the write,
    or of the release of the page in the [try] block), and the release call
    of the handler resolves, the body of the loop returns with the file
    system as it was (no cache record is written), having logged the
    outcome and released the page, and the loop goes on with the entries
    that follow. *)
Theorem enrichment_errors_are_isolated_when_the_handler_releases
  before f after w w1 (json : EntryData) :
  fillCache before w = (Return tt, w1) ->
  entriesData (fs w1) ≫= (.!! f) = Some (Json json) ->
  workspaceReadabilityCache (fs w1) ≫= (.!! (cacheFile f)) = None ->
  (forall minified, attemptOf json w1 <> Enriched minified) ->
  handlerErrorOf json w1 = None ->
  exists w2,
    fillStep tt f w1 = (Return tt, w2)
    /\ fillCache (before ++ f :: after) w = fillCache after w2
    /\ fs w2 = fs w1
    /\ let h := slice0 f (strlen f - strlen dot_json) in
       let skip := ConsoleLog (h +:+ " - Skip " +:+ link json) in
       let failure := ConsoleLog (h +:+ " - Fail to load " +:+ link json) in
       exists t,
         output w2
         = output w1
           ++ [Iteration f; ConsoleLog (h +:+ " - Load " +:+ link json);
               LoadContent f json] ++ t
         /\ t ∈ [[skip; Close]; [failure; Close]; [skip; Close; failure; Close]].
Proof.
  intros Hbefore Hjson Hfresh Hfail Hhandler.
  pose proof (fillStep_fresh f w1 json Hjson Hfresh) as Hstep.
  rewrite enrich_spec in Hstep.
  change (handlerErrorOf json (logged w1 _)) with (handlerErrorOf json w1) in Hstep.
  change (attemptOf json (logged w1 _)) with (attemptOf json w1) in Hstep.
  change (blockReleaseFails json (logged w1 _)) with (blockReleaseFails json w1)
    in Hstep.
  rewrite Hhandler in Hstep. eexists. split; [exact Hstep|]. split.
  { unfold fillCache in *. rewrite forOf_app, (bind_Return _ _ _ _ _ Hbefore).
    cbn [forOf]. by rewrite (bind_Return _ _ _ _ _ Hstep). }
  cbn [fs page output logged].
  destruct (attemptOf json w1) as [m| |] eqn:Hattempt; [by destruct (Hfail m)|..].
  - split; [done|]. rewrite <- !app_assoc. eexists. split; [reflexivity|].
    destruct (blockReleaseFails json w1); set_solver.
  - split; [done|]. rewrite <- !app_assoc. eexists. split; [reflexivity|].
    assert (blockReleaseFails json w1 = false) as ->
      by (unfold blockReleaseFails; by rewrite Hattempt).
    set_solver.
Qed.

(** *** The top-level pass (lines 364-390) *)

Lemma throwsErrors_ret {A} (a : A) : throwsErrors (ret a).
Proof. by intros w t w' [=]. Qed.

Lemma throwsErrors_bind {A B} (m : M A) (k : A -> M B) :
  throwsErrors m -> (forall a, throwsErrors (k a)) -> throwsErrors (bind m k).
Proof.
  intros Hm Hk w t w' Hrun.
  apply bind_inv in Hrun as [(a & w1 & _ & Hrun)|(e & Hrun & [= ->])].
  - by eapply Hk.
  - by eapply Hm.
Qed.

Lemma throwsErrors_forOf {A S} (xs : list A) (s : S) (body : S -> A -> M S) :
  (forall s x, throwsErrors (body s x)) -> throwsErrors (forOf xs s body).
Proof.
  intros Hbody. revert s. induction xs as [|x xs IH]; intros s; simpl.
  - apply throwsErrors_ret.
  - apply throwsErrors_bind; [apply Hbody | intros s'; apply IH].
Qed.

Lemma throwsErrors_Array_map {A B} (f : A -> M B) (xs : list A) :
  (forall x, throwsErrors (f x)) -> throwsErrors (Array_map f xs).
Proof.
  intros Hf. induction xs as [|x xs IH]; simpl.
  - apply throwsErrors_ret.
  - apply throwsErrors_bind; [apply Hf|]. intros y.
    apply throwsErrors_bind; [apply IH|]. intros ys. apply throwsErrors_ret.
Qed.

Lemma throwsErrors_readdirSync {A} (s : store A) : throwsErrors (readdirSync s).
Proof.
  intros w t w'. unfold readdirSync. destruct (get s (fs w)); intros [= <- _]. by eexists.
Qed.
Lemma throwsErrors_readFileSync {A} (s : store A) f : throwsErrors (readFileSync s f).
Proof.
  intros w t w'. unfold readFileSync.
  destruct (get s (fs w) ≫= _); intros [= <- _]. by eexists.
Qed.
Lemma throwsErrors_writeFileSync {A} (s : store A) f (data : A) :
  throwsErrors (writeFileSync s f data).
Proof.
  intros w t w'. unfold writeFileSync. destruct (get s (fs w)); intros [= <- _]. by eexists.
Qed.
Lemma throwsErrors_mkdirSync {A} (s : store A) : throwsErrors (mkdirSync s).
Proof. by intros w t w' [=]. Qed.
Lemma throwsErrors_statSync_feeds : throwsErrors statSync_feeds.
Proof.
  intros w t w'. unfold statSync_feeds.
  destruct (feedsContent (fs w)); intros [= <- _]. by eexists.
Qed.
Lemma throwsErrors_readdirSync_feeds : throwsErrors readdirSync_feeds.
Proof.
  intros w t w'. unfold readdirSync_feeds.
  destruct (feedsContent (fs w)); intros [= <- _]. by eexists.
Qed.
Lemma throwsErrors_readdirSync_category c : throwsErrors (readdirSync_category c).
Proof.
  intros w t w'. unfold readdirSync_category.
  destruct (feedsContent (fs w) ≫= _) as [[]|]; intros [= <- _]; by eexists.
Qed.
Lemma throwsErrors_readFileSync_category c f : throwsErrors (readFileSync_category c f).
Proof.
  intros w t w'. unfold readFileSync_category.
  destruct (feedsContent (fs w) ≫= _) as [[d|]|]; [destruct (d !! f)|..];
    intros [= <- _]; by eexists.
Qed.
Lemma throwsErrors_JSON_parse {A} (text : file A) : throwsErrors (JSON_parse text).
Proof. intros w t w'. destruct text; intros [= <- _]. by eexists. Qed.

Ltac errors_step :=
  lazymatch goal with
  | |- throwsErrors (ret _) => apply throwsErrors_ret
  | |- throwsErrors (bind _ _) => apply throwsErrors_bind; [|intros ?]
  | |- throwsErrors (forOf _ _ _) => apply throwsErrors_forOf; intros ? ?
  | |- throwsErrors (Array_map _ _) => apply throwsErrors_Array_map; intros ?
  | |- throwsErrors (readdirSync _) => apply throwsErrors_readdirSync
  | |- throwsErrors (readFileSync _ _) => apply throwsErrors_readFileSync
  | |- throwsErrors (writeFileSync _ _ _) => apply throwsErrors_writeFileSync
  | |- throwsErrors (mkdirSync _) => apply throwsErrors_mkdirSync
  | |- throwsErrors statSync_feeds => apply throwsErrors_statSync_feeds
  | |- throwsErrors readdirSync_feeds => apply throwsErrors_readdirSync_feeds
  | |- throwsErrors (readdirSync_category _) => apply throwsErrors_readdirSync_category
  | |- throwsErrors (readFileSync_category _ _) => apply throwsErrors_readFileSync_category
  | |- throwsErrors (JSON_parse _) => apply throwsErrors_JSON_parse
  end.

Lemma throwsErrors_prepareDirectories : throwsErrors prepareDirectories.
Proof. unfold prepareDirectories. repeat errors_step. Qed.

Lemma throwsErrors_createRepositoryData githubRootName customDomainName :
  throwsErrors (createRepositoryData githubRootName customDomainName).
Proof. unfold createRepositoryData. repeat errors_step. Qed.

Lemma throwsErrors_createCategoryData : throwsErrors createCategoryData.
Proof.
  unfold createCategoryData, createCategoryEntries, createSitesData, createSiteData,
    createEntryData.
  repeat errors_step.
Qed.

Lemma throwsErrors_createAllEntriesData : throwsErrors createAllEntriesData.
Proof. unfold createAllEntriesData, readEntrySummary. repeat errors_step. Qed.

Lemma reportFailure_error e w :
  reportFailure (ErrorObject e) w
  = (Throw (ErrorObject e), logged w [SetFailed (ErrorObject e)]).
Proof. reflexivity. Qed.

(** C6. An error thrown by the directory setup (or by the write of the
    repository file after it), by the category aggregation or by the
    global indexing is an [Error] object; the
    top-level pass reports it to the CI host with [core.setFailed] and
    throws it again, leaving the world as the failing phase left it. *)
Theorem fatal_errors_are_reported_and_rethrown w t w' :
  fatalPhase w t w' ->
  prepareEleventyData w = (Throw t, logged w' [SetFailed t])
  /\ exists e, t = ErrorObject e.
Proof.
  intros Hfatal.
  assert (Hbody :
    bind (console_log "Preparing eleventy data") (fun _ =>
      bind prepareDirectories (fun _ =>
        bind (createRepositoryData (default "" GITHUB_REPOSITORY) customDomain) (fun _ =>
          bind createCategoryData (fun _ =>
            bind createAllEntriesData (fun _ => loadEntryWithPuppeteer))))) w
    = (Throw t, w') /\ exists e, t = ErrorObject e).
  { unfold bind at 1. unfold console_log, emit. cbn [fst snd].
    destruct Hfatal as [H1|(w1 & H1 & [H2|(data & w2 & H2 & [H3|(w3 & H3 & H4)])])].
    - rewrite (bind_Throw _ _ _ _ _ H1). split; [done|].
      by apply throwsErrors_prepareDirectories in H1.
    - rewrite (bind_Return _ _ _ _ _ H1), (bind_Throw _ _ _ _ _ H2). split; [done|].
      by apply throwsErrors_createRepositoryData in H2.
    - rewrite (bind_Return _ _ _ _ _ H1), (bind_Return _ _ _ _ _ H2),
        (bind_Throw _ _ _ _ _ H3). split; [done|].
      by apply throwsErrors_createCategoryData in H3.
    - rewrite (bind_Return _ _ _ _ _ H1), (bind_Return _ _ _ _ _ H2),
        (bind_Return _ _ _ _ _ H3), (bind_Throw _ _ _ _ _ H4). split; [done|].
      by apply throwsErrors_createAllEntriesData in H4. }
  destruct Hbody as [Hbody [e ->]]. split; [|by eexists].
  unfold prepareEleventyData, tryCatch. rewrite Hbody. apply reportFailure_error.
Qed.

(** *** The entries store and the global index (lines 164-167, 231-256) *)

Lemma recordAll_snoc ms m d :
  recordAll (ms ++ [m]) d = <[entryHash m +:+ dot_json := Json m]> (recordAll ms d).
Proof. unfold recordAll. by rewrite foldl_app. Qed.

Lemma recordAll_lookup ms d k :
  recordAll ms d !! k
  = match last (filter (fun m => entryHash m +:+ dot_json = k) ms) with
    | Some m => Some (Json m)
    | None => d !! k
    end.
Proof.
  induction ms as [|m ms IH] using rev_ind; [done|].
  rewrite recordAll_snoc, filter_app, filter_cons, filter_nil.
  destruct (decide (entryHash m +:+ dot_json = k)) as [<-|Hne].
  - by rewrite lookup_insert_eq, last_snoc.
  - by rewrite lookup_insert_ne, app_nil_r.
Qed.

Lemma last_filter_refine {A} (P Q : A -> Prop)
    `{forall x, Decision (P x)} `{forall x, Decision (Q x)} (l : list A) x :
  last (filter P l) = Some x -> Q x -> (forall y, y ∈ l -> Q y -> P y) ->
  last (filter Q l) = Some x.
Proof.
  induction l as [|y l IH] using rev_ind; [done|].
  rewrite !filter_app, !filter_cons, !filter_nil. intros Hlast Hx Himp.
  destruct (decide (P y)) as [Hy|Hy].
  - rewrite last_snoc in Hlast. injection Hlast as ->.
    rewrite decide_True by done. apply last_snoc.
  - rewrite app_nil_r in Hlast.
    rewrite decide_False, app_nil_r.
    + apply IH; [done..|]. intros z Hz. apply Himp, elem_of_app. by left.
    + intros HQ. apply Hy, Himp; [|done]. apply elem_of_app. right. left.
Qed.

Lemma entriesOf_wellKeyed category site json :
  Forall wellKeyed (entriesOf category site json).
Proof. unfold entriesOf. apply Forall_forall. by intros data (e & -> & _)%list_elem_of_fmap. Qed.

Lemma materialized_wellKeyed f : Forall wellKeyed (materialized f).
Proof.
  unfold materialized. apply Forall_concat, Forall_fmap, Forall_forall.
  intros category _. simpl. apply Forall_concat, Forall_fmap, Forall_forall.
  intros site _. simpl. unfold siteRecords.
  destruct (siteFile f category site) as [[json|]|]; [|done..].
  apply entriesOf_wellKeyed.
Qed.

Lemma recordAll_keyed ms d :
  Forall wellKeyed ms -> keyedByIdentifier d -> keyedByIdentifier (recordAll ms d).
Proof.
  intros Hms Hd k data. rewrite recordAll_lookup.
  destruct (last (filter _ ms)) as [m|] eqn:Hlast; [|apply Hd].
  intros [= ->]. apply last_Some_elem_of, list_elem_of_filter in Hlast as [<- Hin].
  rewrite Forall_forall in Hms. unfold entryFile. by rewrite (Hms _ Hin).
Qed.

Lemma keyed_one_record_per_pair d n1 n2 (d1 d2 : EntryData) :
  keyedByIdentifier d ->
  d !! n1 = Some (Json d1) -> d !! n2 = Some (Json d2) ->
  title d1 = title d2 -> link d1 = link d2 ->
  n1 = n2 /\ d1 = d2.
Proof.
  intros Hd H1 H2 Ht Hl.
  assert (n1 = n2) as ->.
  { rewrite (Hd _ _ H1), (Hd _ _ H2). unfold entryFile, identifier. by rewrite Ht, Hl. }
  split; [done|]. congruence.
Qed.

Lemma createSitesData_feeds category sites :
  preserves (same feedsContent) (createSitesData category sites).
Proof. unfold createSitesData, createSiteData, createEntryData. frame. Qed.

Lemma createCategoryEntries_feeds categoriesData category :
  preserves (same feedsContent) (createCategoryEntries categoriesData category).
Proof.
  unfold createCategoryEntries, createSitesData, createSiteData, createEntryData. frame.
Qed.

Lemma siteNames_feeds f f' category :
  feedsContent f = feedsContent f' -> siteNames f category = siteNames f' category.
Proof. unfold siteNames. by intros ->. Qed.

Lemma createCategoryEntries_inv categoriesData category w r w' :
  createCategoryEntries categoriesData category w = (Return r, w') ->
  entriesData (fs w')
  = recordAll (List.concat (List.map (siteRecords (fs w) category)
                              (siteNames (fs w) category)))
      <$> entriesData (fs w).
Proof.
  unfold createCategoryEntries. intros Hrun.
  apply bind_inv in Hrun as [(sites & w1 & Hsites & Hrun)|(? & _ & [=])].
  assert (w1 = w /\ sites = siteNames (fs w) category) as [-> ->].
  { revert Hsites. unfold readdirSync_category, siteNames.
    destruct (feedsContent (fs w) ≫= _) as [[d|]|]; by intros [= <- <-]. }
  apply bind_inv in Hrun as [(sitesData & w1 & Hdata & Hrun)|(? & _ & [=])].
  apply createSitesData_loop in Hdata as [_ Hstore].
  apply bind_inv in Hrun as [([] & w2 & Hwrite & Hrun)|(? & _ & [=])].
  injection Hrun as _ <-.
  assert (Hsame : same entriesData w1 w2).
  { revert Hwrite. by apply writeFileSync_same. }
  by rewrite <- Hsame.
Qed.

Lemma createCategoryData_loop categories categoriesData w r w' :
  forOf categories categoriesData createCategoryEntries w = (Return r, w') ->
  entriesData (fs w')
  = recordAll (List.concat (List.map (fun category =>
        List.concat (List.map (siteRecords (fs w) category) (siteNames (fs w) category)))
      categories))
      <$> entriesData (fs w).
Proof.
  revert categoriesData w.
  induction categories as [|c categories IH]; intros acc w Hrun; simpl in Hrun.
  - injection Hrun as _ <-. by destruct (entriesData (fs w)).
  - apply bind_inv in Hrun as [(r1 & w1 & Hc & Hrun)|(? & _ & [=])].
    pose proof (createCategoryEntries_feeds _ _ _ _ _ Hc) as Hfeeds.
    apply createCategoryEntries_inv in Hc. apply IH in Hrun.
    rewrite Hrun, Hc. cbn [List.map List.concat].
    rewrite (map_ext_in _ (fun category =>
      List.concat (List.map (siteRecords (fs w) category) (siteNames (fs w) category)))).
    + destruct (entriesData (fs w)) as [d|]; [|done].
      cbn [fmap option_fmap option_map]. by rewrite recordAll_app.
    + intros c' _. rewrite <- (siteNames_feeds _ _ _ Hfeeds). f_equal.
      apply map_ext_in. intros s _. symmetry. by apply siteRecords_feeds.
Qed.

Lemma createCategoryData_entries w w' :
  createCategoryData w = (Return tt, w') ->
  entriesData (fs w') = recordAll (materialized (fs w)) <$> entriesData (fs w).
Proof.
  unfold createCategoryData. intros Hrun.
  apply bind_inv in Hrun as [(categories & w1 & Hcs & Hrun)|(? & _ & [=])].
  assert (w1 = w /\ categories = categoryNames (fs w)) as [-> ->].
  { revert Hcs. unfold readdirSync_feeds, categoryNames.
    destruct (feedsContent (fs w)); by intros [= <- <-]. }
  apply bind_inv in Hrun as [(categoriesData & w1 & Hloop & Hrun)|(? & _ & [=])].
  apply createCategoryData_loop in Hloop.
  assert (Hsame : same entriesData w1 w').
  { revert Hrun. apply (preserves_bind (same entriesData)); [|intros ?];
      by apply writeFileSync_same. }
  by rewrite <- Hsame.
Qed.

Lemma readEntrySummary_inv name w s w' :
  readEntrySummary name w = (Return s, w') ->
  w' = w /\ exists data, entriesData (fs w) ≫= (.!! name) = Some (Json data)
                         /\ s = summary data.
Proof.
  unfold readEntrySummary. intros Hrun.
  apply bind_inv in Hrun as [(text & w1 & Htext & Hrun)|(? & _ & [=])].
  assert (w1 = w /\ entriesData (fs w) ≫= (.!! name) = Some text) as [-> Hfile].
  { revert Htext. unfold readFileSync. simpl.
    destruct (entriesData (fs w) ≫= _); by intros [= <- <-]. }
  apply bind_inv in Hrun as [(json & w1 & Hjson & Hrun)|(? & _ & [=])].
  apply JSON_parse_inv in Hjson as [-> ->]. injection Hrun as <- <-. eauto.
Qed.

Lemma readEntrySummaries_inv names w l w' :
  Array_map readEntrySummary names w = (Return l, w') ->
  w' = w
  /\ Forall2 (fun name s => exists data,
                 entriesData (fs w) ≫= (.!! name) = Some (Json data) /\ s = summary data)
       names l.
Proof.
  revert l w'. induction names as [|name names IH]; intros l w' Hrun; simpl in Hrun.
  - by injection Hrun as <- <-.
  - apply bind_inv in Hrun as [(s & w1 & Hs & Hrun)|(? & _ & [=])].
    apply readEntrySummary_inv in Hs as [-> Hs].
    apply bind_inv in Hrun as [(ss & w1 & Hss & Hrun)|(? & _ & [=])].
    apply IH in Hss as [-> Hss]. injection Hrun as <- <-. split; [done|].
    by constructor.
Qed.

(** The entry files are read and parsed by the global indexing first: when
    it returns, the fill loop can read every file of the entries store. *)
Lemma indexed_entries_are_readable w w' :
  createAllEntriesData w = (Return tt, w') ->
  forall store, entriesData (fs w') = Some store ->
    readable (map_to_list store).*1 w'.
Proof.
  unfold createAllEntriesData. intros Hrun store Hstore.
  apply bind_inv in Hrun as [(names & w1 & Hnames & Hrun)|(? & _ & [=])].
  pose proof (readdirSync_readonly _ _ _ _ Hnames) as ->.
  apply bind_inv in Hrun as [(l & w1 & Hl & Hrun)|(? & _ & [=])].
  apply readEntrySummaries_inv in Hl as [-> Hl].
  assert (Hsame : same entriesData w w').
  { revert Hrun. by apply writeFileSync_same. }
  unfold same in Hsame. rewrite <- Hsame in Hstore.
  revert Hnames. unfold readdirSync. simpl. rewrite Hstore. intros [= <-].
  apply (readable_same _ w); [done|].
  intros f [i Hi]%list_elem_of_lookup.
  destruct (Forall2_lookup_l _ _ _ _ _ Hl Hi) as (s & _ & data & Hdata & _). eauto.
Qed.

Lemma Forall2_NoDup_image {A B C} (R : A -> B -> Prop) (g : B -> C) xs ys :
  Forall2 R xs ys -> NoDup xs ->
  (forall x y x' y', R x y -> R x' y' -> g y = g y' -> x = x') ->
  NoDup (g <$> ys).
Proof.
  intros HR Hnd Hinj. induction HR as [|x y xs ys Hxy HR IH]; [constructor|].
  apply NoDup_cons in Hnd as [Hx Hnd]. cbn. apply NoDup_cons. split; [|by apply IH].
  intros (y' & Hg & Hy')%list_elem_of_fmap.
  apply list_elem_of_lookup in Hy' as [i Hi].
  destruct (Forall2_lookup_r _ _ _ _ _ HR Hi) as (x' & Hx' & Hxy').
  apply Hx. rewrite (Hinj _ _ _ _ Hxy Hxy' Hg). by apply list_elem_of_lookup_2 in Hx'.
Qed.

(** C10. The entries store is keyed by the entry identifier alone. After
    the category aggregation of a run that starts from a store keyed this
    way (an empty one, for instance), the store is the old one with every
    materialized record written in turn under its identifier, a later
    record replacing an earlier one of the same file; it holds at most one
    record for a title and link, and the record a file of this run holds
    is the last one materialized with its title and link, with the site
    and category of that materialization. The global index lists the
    records of the store, so at most one for a title and link. *)
Theorem entries_store_keeps_one_record_per_title_and_link w w1 w2 store :
  entriesData (fs w) = Some store ->
  keyedByIdentifier store ->
  createCategoryData w = (Return tt, w1) ->
  createAllEntriesData w1 = (Return tt, w2) ->
  let store1 := recordAll (materialized (fs w)) store in
  entriesData (fs w1) = Some store1
  /\ keyedByIdentifier store1
  /\ (forall n1 n2 (d1 d2 : EntryData),
        store1 !! n1 = Some (Json d1) -> store1 !! n2 = Some (Json d2) ->
        title d1 = title d2 -> link d1 = link d2 -> n1 = n2 /\ d1 = d2)
  /\ (forall m : EntryData, m ∈ materialized (fs w) ->
        exists latest : EntryData, store1 !! entryFile m = Some (Json latest))
  /\ (forall fileName (data : EntryData),
        store1 !! fileName = Some (Json data) ->
        (exists m : EntryData, m ∈ materialized (fs w) /\ entryFile m = fileName) ->
        last (filter (fun m : EntryData => title m = title data /\ link m = link data)
                (materialized (fs w)))
        = Some data)
  /\ exists index,
       dataDir (fs w2) ≫= (.!! "all.json") = Some (AllEntries index)
       /\ NoDup ((fun s => (se_title s, se_link s)) <$> index)
       /\ forall s, s ∈ index <->
            exists fileName (data : EntryData),
              store1 !! fileName = Some (Json data) /\ s = summary data.
Proof.
  intros Hstore Hkeyed Hcat Hall store1.
  pose proof (materialized_wellKeyed (fs w)) as Hwell.
  assert (Hkeys : forall m : EntryData, m ∈ materialized (fs w) ->
            entryHash m +:+ dot_json = entryFile m).
  { intros m Hm. rewrite Forall_forall in Hwell. unfold entryFile.
    by rewrite (Hwell _ Hm). }
  assert (Hstore1 : entriesData (fs w1) = Some store1).
  { apply createCategoryData_entries in Hcat. by rewrite Hcat, Hstore. }
  assert (Hkeyed1 : keyedByIdentifier store1) by by apply recordAll_keyed.
  split; [done|]. split; [done|]. split.
  { intros n1 n2 d1 d2. by apply keyed_one_record_per_pair. }
  split.
  { intros m Hm. unfold store1. rewrite recordAll_lookup.
    destruct (last (filter _ (materialized (fs w)))) as [m'|] eqn:Hlast; [by eexists|].
    apply last_None in Hlast.
    assert (Hin : m ∈ filter (fun m0 : EntryData => entryHash m0 +:+ dot_json = entryFile m)
                    (materialized (fs w))).
    { apply list_elem_of_filter. split; [by apply Hkeys|done]. }
    rewrite Hlast in Hin. by apply elem_of_nil in Hin. }
  split.
  { intros fileName data Hdata (m & Hm & Hfile).
    unfold store1 in Hdata. rewrite recordAll_lookup in Hdata.
    destruct (last (filter _ (materialized (fs w)))) as [m'|] eqn:Hlast.
    2:{ apply last_None in Hlast.
        assert (Hin : m ∈ filter (fun m0 : EntryData => entryHash m0 +:+ dot_json = fileName)
                        (materialized (fs w))).
        { apply list_elem_of_filter. split; [|done]. by rewrite Hkeys. }
        rewrite Hlast in Hin. by apply elem_of_nil in Hin. }
    injection Hdata as ->.
    pose proof (last_Some_elem_of _ _ Hlast) as [Hkey Hin]%list_elem_of_filter.
    eapply last_filter_refine; [exact Hlast|done|].
    intros y Hy [Ht Hl]. cbn beta.
    rewrite <- Hkey, !Hkeys by done. unfold entryFile, identifier. by rewrite Ht, Hl. }
  unfold createAllEntriesData in Hall.
  apply bind_inv in Hall as [(names & w3 & Hnames & Hall)|(? & _ & [=])].
  assert (w3 = w1 /\ names = (map_to_list store1).*1) as [-> ->].
  { revert Hnames. unfold readdirSync. simpl. rewrite Hstore1. by intros [= <- <-]. }
  apply bind_inv in Hall as [(l & w3 & Hl & Hall)|(? & _ & [=])].
  apply readEntrySummaries_inv in Hl as [-> Hl].
  rewrite Hstore1 in Hl. simpl in Hl.
  exists (Array_sort byDateDescending l). split.
  { revert Hall. unfold writeFileSync. simpl.
    destruct (dataDir (fs w1)) as [d|]; [|done]. intros [= <-]. simpl.
    apply lookup_insert_eq. }
  split.
  { rewrite Array_sort_perm.
    eapply Forall2_NoDup_image; [exact Hl|apply NoDup_fst_map_to_list|].
    intros n s n' s' (d1 & H1 & ->) (d2 & H2 & ->) [= Ht Hl'].
    by destruct (keyed_one_record_per_pair _ _ _ _ _ Hkeyed1 H1 H2 Ht Hl'). }
  intros s. rewrite Array_sort_perm. split.
  - intros [i Hi]%list_elem_of_lookup.
    destruct (Forall2_lookup_r _ _ _ _ _ Hl Hi) as (n & _ & data & Hdata & ->). eauto.
  - intros (n & data & Hdata & ->).
    assert (Hn : n ∈ (map_to_list store1).*1) by (apply readdirSync_names; eauto).
    apply list_elem_of_lookup in Hn as [i Hi].
    destruct (Forall2_lookup_l _ _ _ _ _ Hl Hi) as (s & Hs & data' & Hdata' & ->).
    rewrite Hdata in Hdata'. injection Hdata' as <-.
    by apply list_elem_of_lookup_2 in Hs.
Qed.

(** *** Where the sort is applied *)

(** The entries of a site record are the summaries of the feed's entries,
    in the order of the feed, sorted. *)
Lemma site_entries_are_sorted category result site w r w' :
  createSiteData category result site w = (Return r, w') ->
  exists json,
    siteFile (fs w) category site = Some (Json json)
    /\ entries <$> last r
       = Some (Array_sort byDateDescending
                 (summary <$> entriesOf category site json)).
Proof.
  intros (json & Hfile & -> & _)%createSiteData_inv. exists json.
  split; [done|]. by rewrite last_snoc.
Qed.

(** The file of a category holds the entries of its sites, site after site
    in the order of the directory, sorted. *)
Lemma category_entries_are_sorted categoriesData category w r w' :
  createCategoryEntries categoriesData category w = (Return r, w') ->
  exists sitesData w1,
    createSitesData category (siteNames (fs w) category) w = (Return sitesData, w1)
    /\ categoryData (fs w') ≫= (.!! (category +:+ dot_json))
       = Some (Array_sort byDateDescending
                 (foldl (fun acc (s : SiteDataWithEntries) => acc ++ entries s)
                    [] sitesData)).
Proof.
  unfold createCategoryEntries. intros Hrun.
  apply bind_inv in Hrun as [(sites & w1 & Hsites & Hrun)|(? & _ & [=])].
  assert (w1 = w /\ sites = siteNames (fs w) category) as [-> ->].
  { revert Hsites. unfold readdirSync_category, siteNames.
    destruct (feedsContent (fs w) ≫= _) as [[d|]|]; by intros [= <- <-]. }
  apply bind_inv in Hrun as [(sitesData & w1 & Hdata & Hrun)|(? & _ & [=])].
  apply bind_inv in Hrun as [([] & w2 & Hwrite & Hrun)|(? & _ & [=])].
  injection Hrun as _ <-. exists sitesData, w1. split; [done|].
  revert Hwrite. unfold writeFileSync. simpl.
  destruct (categoryData (fs w1)) as [d|]; [|done]. intros [= <-]. simpl.
  apply lookup_insert_eq.
Qed.

(** The global index holds the summaries of the files of the entries store,
    in the order of the directory, sorted. *)
Lemma index_entries_are_sorted w w' store :
  entriesData (fs w) = Some store ->
  createAllEntriesData w = (Return tt, w') ->
  exists l,
    Forall2 (fun fileName s => exists data : EntryData,
                store !! fileName = Some (Json data) /\ s = summary data)
      (map_to_list store).*1 l
    /\ dataDir (fs w') ≫= (.!! "all.json")
       = Some (AllEntries (Array_sort byDateDescending l)).
Proof.
  intros Hstore Hrun. unfold createAllEntriesData in Hrun.
  apply bind_inv in Hrun as [(names & w1 & Hnames & Hrun)|(? & _ & [=])].
  assert (w1 = w /\ names = (map_to_list store).*1) as [-> ->].
  { revert Hnames. unfold readdirSync. simpl. rewrite Hstore. by intros [= <- <-]. }
  apply bind_inv in Hrun as [(l & w1 & Hl & Hrun)|(? & _ & [=])].
  apply readEntrySummaries_inv in Hl as [-> Hl].
  rewrite Hstore in Hl. simpl in Hl. exists l. split; [done|].
  revert Hrun. unfold writeFileSync. simpl.
  destruct (dataDir (fs w)) as [d|]; [|done]. intros [= <-]. simpl.
  apply lookup_insert_eq.
Qed.

(** *** The hasher (lines 108-112) *)

Lemma round_length st kw : length st = 8%nat -> length (Sha256.round st kw) = 8%nat.
Proof.
  intros Hst. do 9 (destruct st as [|? st]; try discriminate Hst). reflexivity.
Qed.

Lemma rounds_length kws st :
  length st = 8%nat -> length (fold_left Sha256.round kws st) = 8%nat.
Proof.
  revert st. induction kws as [|kw kws IH]; intros st Hst; simpl; [done|].
  apply IH. by apply round_length.
Qed.

Lemma compress_length h block :
  length h = 8%nat -> length (Sha256.compress h block) = 8%nat.
Proof.
  intros Hh. unfold Sha256.compress.
  rewrite List.length_map, List.length_combine, rounds_length by done. lia.
Qed.

Lemma compress_all_length blocks h :
  length h = 8%nat -> length (fold_left Sha256.compress blocks h) = 8%nat.
Proof.
  revert h. induction blocks as [|b blocks IH]; intros h Hh; simpl; [done|].
  apply IH. by apply compress_length.
Qed.

Lemma hex_digit_is_hex x : Sha256.hex_digit (Z.land x 0xf) ∈ hexDigits.
Proof.
  assert (Hrange : 0 <= Z.land x 0xf < 16).
  { change 0xf with (Z.ones 4). rewrite Z.land_ones by lia. apply Z.mod_pos_bound. lia. }
  destruct (Z.land x 0xf) as [|p|p]; [| |lia].
  - apply list_elem_of_In. cbv. tauto.
  - assert (Hp : (p < 16)%positive) by lia.
    apply list_elem_of_In.
    repeat (destruct p as [p|p|]; try lia); cbv; tauto.
Qed.

Lemma hex_word_is_hex x :
  length (Sha256.hex_word x) = 8%nat /\ Forall (fun c => c ∈ hexDigits) (Sha256.hex_word x).
Proof.
  unfold Sha256.hex_word. split.
  - by rewrite List.length_map, List.length_rev, List.length_seq.
  - apply Forall_forall. intros c (i & <- & _)%list_elem_of_In%in_map_iff.
    apply hex_digit_is_hex.
Qed.

Lemma hex_words_are_hex ws :
  length (List.concat (List.map Sha256.hex_word ws)) = (8 * length ws)%nat
  /\ Forall (fun c => c ∈ hexDigits) (List.concat (List.map Sha256.hex_word ws)).
Proof.
  induction ws as [|x ws [IHlen IHhex]]; [by split|].
  destruct (hex_word_is_hex x) as [Hlen Hhex]. cbn [List.map List.concat]. split.
  - rewrite length_app, Hlen, IHlen. simpl. lia.
  - by apply Forall_app.
Qed.

Lemma string_of_list_ascii_length l :
  String.length (string_of_list_ascii l) = length l.
Proof. induction l as [|c l IH]; simpl; [done|]. by rewrite IH. Qed.

(** X1. The identifier [createHash] makes is always 64 characters long,
    each a digit or a letter from a to f: the hexadecimal form of a
    256-bit digest, whatever the input. *)
Theorem createHash_is_64_hex_digits input :
  String.length (createHash input) = 64%nat
  /\ Forall (fun c => c ∈ hexDigits) (list_ascii_of_string (createHash input)).
Proof.
  unfold createHash, Sha256.digest_hex.
  set (bs := Sha256.pad (Sha256.bytes_of_string input)).
  set (ws := Sha256.words (length bs) bs).
  set (h := fold_left Sha256.compress (Sha256.blocks (length ws) ws) Sha256.H0).
  assert (Hh : length h = 8%nat) by (apply compress_all_length; reflexivity).
  destruct (hex_words_are_hex h) as [Hlen Hhex]. split.
  - rewrite string_of_list_ascii_length, Hlen, Hh. reflexivity.
  - by rewrite list_ascii_of_string_of_list_ascii.
Qed.

(** *** The fill loop when the fetch succeeds (lines 303-314) *)

Lemma substring_prefix h rest : String.substring 0 (String.length h) (h +:+ rest) = h.
Proof.
  induction h as [|c h IH]; simpl.
  - by destruct rest.
  - by rewrite IH.
Qed.

Lemma cacheFile_of_json_file h : cacheFile (h +:+ ".json") = h +:+ ".json".
Proof.
  unfold cacheFile, slice0, strlen, dot_json. rewrite string_length_app.
  change (String.length ".json") with 5%nat.
  destruct (Z.ltb_spec (Z.of_nat (String.length h + 5) - Z.of_nat 5) 0) as [Hneg|_];
    [lia|].
  replace (Z.to_nat _) with (String.length h) by lia.
  by rewrite substring_prefix.
Qed.

(** X2. When an entry is not in the durable cache and the fetch, the
    minifier, the write and the release of the page succeed, the body of
    the fill loop writes the entry's record with the minified content to
    the cache of the output, under the name the loop derives from the entry
    file, changes nothing else in the file system, and releases the page;
    for a file the entry materializer wrote, that name is the name of the
    entry file. *)
Theorem enrichment_is_cached_under_the_entry_file_name
  f (json : EntryData) w minified (d : gmap string ReadabilityData) :
  entriesData (fs w) ≫= (.!! f) = Some (Json json) ->
  workspaceReadabilityCache (fs w) ≫= (.!! (cacheFile f)) = None ->
  readabilityCache (fs w) = Some d ->
  attemptOf json w = Enriched minified ->
  (close (loadContent json (page w)).2).1 = None ->
  fillEntry f w
  = (Return tt,
     mkWorld
       (set READABILITY_CACHE_PATH
          (Some (<[cacheFile f := mkReadabilityData json minified]> d)) (fs w))
       (close (loadContent json (page w)).2).2
       (output w
          ++ [ConsoleLog (slice0 f (strlen f - strlen dot_json) +:+ " - Load "
                          +:+ link json);
              LoadContent f json; Close]))
  /\ forall e : Entry, cacheFile (entryFile e) = entryFile e.
Proof.
  intros Hjson Hfresh Hd Hattempt Hclose.
  split; [|intros e; apply cacheFile_of_json_file].
  rewrite fillEntry_fresh, Hjson, enrich_spec by done.
  unfold handlerErrorOf, blockReleaseFails.
  change (attemptOf json (logged w _)) with (attemptOf json w).
  rewrite Hattempt. cbn [fs page output logged]. rewrite Hclose, Hd, <- app_assoc.
  reflexivity.
Qed.

Lemma fillStep_fetches f (json : EntryData) w :
  entriesData (fs w) ≫= (.!! f) = Some (Json json) ->
  workspaceReadabilityCache (fs w) ≫= (.!! (cacheFile f)) = None ->
  exists t, output (fillStep tt f w).2 = output w ++ t /\ LoadContent f json ∈ t.
Proof.
  intros Hjson Hfresh. rewrite (fillStep_fresh f w json), enrich_spec by done.
  cbn [snd output logged]. rewrite <- !app_assoc. eexists. split; [reflexivity|].
  set_solver.
Qed.

Lemma fillCache_fetches entries w f (json : EntryData) :
  (fillCache entries w).1 = Return tt -> f ∈ entries ->
  entriesData (fs w) ≫= (.!! f) = Some (Json json) ->
  workspaceReadabilityCache (fs w) ≫= (.!! (cacheFile f)) = None ->
  exists t, output (fillCache entries w).2 = output w ++ t /\ LoadContent f json ∈ t.
Proof.
  unfold fillCache. revert w.
  induction entries as [|g entries IH]; intros w Hreturns Hin Hjson Hfresh;
    [by apply elem_of_nil in Hin|].
  cbn [forOf] in *.
  destruct (fillStep tt g w) as [[[]|e] w1] eqn:Hstep;
    [|by rewrite (bind_Throw _ _ _ _ _ Hstep) in Hreturns].
  rewrite (bind_Return _ _ _ _ _ Hstep) in *.
  destruct (decide (f = g)) as [->|Hne].
  - destruct (fillStep_fetches g json w Hjson Hfresh) as (t & Ht & Hfetch).
    rewrite Hstep in Ht. cbn [snd] in Ht.
    destruct (fillCache_trace entries w1) as (t' & Ht' & _). unfold fillCache in Ht'.
    exists (t ++ t'). rewrite Ht', Ht, <- app_assoc. split; [done|].
    apply elem_of_app. by left.
  - apply elem_of_cons in Hin as [?|Hin]; [done|].
    pose proof (fillStep_entries _ _ _ _ Hstep) as Hentries.
    pose proof (fillStep_workspace _ _ _ _ Hstep) as Hworkspace.
    unfold same in Hentries, Hworkspace.
    destruct (IH w1) as (t' & Ht' & Hfetch); [done..|by rewrite <- Hentries
                                              |by rewrite <- Hworkspace|].
    apply fillStep_trace in Hstep as (t & Ht & _).
    exists (Iteration g :: t ++ t'). rewrite Ht', Ht, <- app_assoc. split; [done|].
    right. apply elem_of_app. by right.
Qed.

(** X3. The fill loop writes to the cache of the output and looks entries
    up in the durable cache of the workspace, which it never writes: an
    entry that is not in the durable cache is fetched by a pass of the loop
    that returns, and fetched again by a second such pass over the file
    system the first one left, whatever the first pass cached. *)
Theorem fill_does_not_populate_the_durable_cache entries w f (json : EntryData) :
  f ∈ entries ->
  entriesData (fs w) ≫= (.!! f) = Some (Json json) ->
  workspaceReadabilityCache (fs w) ≫= (.!! (cacheFile f)) = None ->
  (fillCache entries w).1 = Return tt ->
  (fillCache entries (fillCache entries w).2).1 = Return tt ->
  exists t1 t2,
    output (fillCache entries w).2 = output w ++ t1
    /\ output (fillCache entries (fillCache entries w).2).2
       = output (fillCache entries w).2 ++ t2
    /\ LoadContent f json ∈ t1 /\ LoadContent f json ∈ t2.
Proof.
  intros Hin Hjson Hfresh Hfirst Hsecond.
  destruct (fillCache_fetches entries w f json) as (t1 & Ht1 & Hf1); [done..|].
  destruct (fillCache entries w) as [r w1] eqn:Hrun. cbn [snd] in *.
  pose proof (fillCache_entries _ _ _ _ Hrun) as Hentries.
  pose proof (fillCache_workspace _ _ _ _ Hrun) as Hworkspace.
  unfold same in Hentries, Hworkspace.
  destruct (fillCache_fetches entries w1 f json) as (t2 & Ht2 & Hf2);
    [done..|by rewrite <- Hentries|by rewrite <- Hworkspace|].
  by exists t1, t2.
Qed.

(** *** The index of the categories (lines 327-361) *)

Lemma map_is_fmap {A B} (f : A -> B) (l : list A) : List.map f l = f <$> l.
Proof. induction l as [|x l IH]; [done|]. cbn. by rewrite IH. Qed.

Lemma createCategoryEntries_index categoriesData category w r w' :
  createCategoryEntries categoriesData category w = (Return r, w') ->
  exists sitesData,
    r = categoriesData ++ [mkCategoryData category (siteSummary <$> sitesData)]
    /\ sd_siteHash <$> (siteSummary <$> sitesData)
       = (fun s => createHash (baseName s)) <$> siteNames (fs w) category.
Proof.
  unfold createCategoryEntries. intros Hrun.
  apply bind_inv in Hrun as [(sites & w1 & Hsites & Hrun)|(? & _ & [=])].
  assert (w1 = w /\ sites = siteNames (fs w) category) as [-> ->].
  { revert Hsites. unfold readdirSync_category, siteNames.
    destruct (feedsContent (fs w) ≫= _) as [[d|]|]; by intros [= <- <-]. }
  apply bind_inv in Hrun as [(sitesData & w1 & Hdata & Hrun)|(? & _ & [=])].
  apply createSitesData_loop in Hdata as [Hhashes _].
  apply bind_inv in Hrun as [([] & w2 & Hwrite & Hrun)|(? & _ & [=])].
  injection Hrun as <- _. exists sitesData. split; [by rewrite map_is_fmap|].
  cbn [List.map app] in Hhashes.
  rewrite (map_is_fmap sd_siteHash), (map_is_fmap site),
    (map_is_fmap (fun s => createHash (baseName s))) in Hhashes.
  rewrite <- Hhashes, <- !list_fmap_compose. by apply list_fmap_ext.
Qed.

Lemma createCategoryData_index_loop categories categoriesData w r w' :
  forOf categories categoriesData createCategoryEntries w = (Return r, w') ->
  exists new,
    r = categoriesData ++ new
    /\ name <$> new = categories
    /\ Forall (fun c => sd_siteHash <$> sites c
                        = (fun s => createHash (baseName s)) <$> siteNames (fs w) (name c))
         new.
Proof.
  revert categoriesData w.
  induction categories as [|c categories IH]; intros acc w Hrun; simpl in Hrun.
  - injection Hrun as <- _. exists []. by rewrite app_nil_r.
  - apply bind_inv in Hrun as [(r1 & w1 & Hc & Hrun)|(? & _ & [=])].
    pose proof (createCategoryEntries_feeds _ _ _ _ _ Hc) as Hfeeds.
    apply createCategoryEntries_index in Hc as (sitesData & -> & Hhashes).
    apply IH in Hrun as (new & -> & Hnames & Hsites).
    exists (mkCategoryData c (siteSummary <$> sitesData) :: new).
    rewrite <- app_assoc. split; [done|]. split; [by rewrite fmap_cons, Hnames|].
    constructor; [done|].
    eapply Forall_impl; [exact Hsites|]. intros c' Hc'. cbn beta in *.
    by rewrite (siteNames_feeds _ _ _ Hfeeds).
Qed.

Lemma createCategoryData_loop_stores categories categoriesData :
  preserves (same embeddedData) (forOf categories categoriesData createCategoryEntries)
  /\ preserves (same dataDir) (forOf categories categoriesData createCategoryEntries).
Proof.
  split; unfold createCategoryEntries, createSitesData, createSiteData, createEntryData;
    frame.
Qed.

(** X4. When the category aggregation returns, the two files
    [categories.json], the one of the embedded data and the one of the
    data output, hold the same index: one category for each directory of
    the feeds, in the order of the directory and under its name, with one
    site for each file of the directory, identified by the hash of the
    file's base name; the other files of the two directories are left as
    they were. *)
Theorem category_index_is_written_twice w w' :
  createCategoryData w = (Return tt, w') ->
  exists cs (embedded data : gmap string document),
    embeddedData (fs w) = Some embedded
    /\ dataDir (fs w) = Some data
    /\ embeddedData (fs w') = Some (<["categories.json" := CategoriesIndex cs]> embedded)
    /\ dataDir (fs w') = Some (<["categories.json" := CategoriesIndex cs]> data)
    /\ name <$> cs = categoryNames (fs w)
    /\ Forall (fun c => sd_siteHash <$> sites c
                        = (fun s => createHash (baseName s)) <$> siteNames (fs w) (name c))
         cs.
Proof.
  unfold createCategoryData. intros Hrun.
  apply bind_inv in Hrun as [(categories & w1 & Hcs & Hrun)|(? & _ & [=])].
  assert (w1 = w /\ categories = categoryNames (fs w)) as [-> ->].
  { revert Hcs. unfold readdirSync_feeds, categoryNames.
    destruct (feedsContent (fs w)); by intros [= <- <-]. }
  apply bind_inv in Hrun as [(cs & w1 & Hloop & Hrun)|(? & _ & [=])].
  destruct (createCategoryData_loop_stores (categoryNames (fs w)) []) as [He Hd].
  apply He in Hloop as Hembedded. apply Hd in Hloop as Hdata.
  unfold same in Hembedded, Hdata.
  apply createCategoryData_index_loop in Hloop as (new & -> & Hnames & Hsites).
  apply bind_inv in Hrun as [([] & w2 & Hw1 & Hw2)|(? & _ & [=])].
  revert Hw1 Hw2. unfold writeFileSync. cbn [get EMBEDDED_DATA_PATH DATA_PATH].
  rewrite <- Hembedded.
  destruct (embeddedData (fs w)) as [embedded|]; [|done]. intros [= <-].
  cbn [fs with_fs set EMBEDDED_DATA_PATH dataDir]. rewrite <- Hdata.
  destruct (dataDir (fs w)) as [data|]; [|done]. intros [= <-].
  exists new, embedded, data. by repeat split.
Qed.

(** *** The top-level pass as a whole (lines 364-390) *)

Lemma throwsErrors_tryCatch {A} (m : M A) (h : thrown -> M A) :
  (forall e, throwsErrors (h e)) -> throwsErrors (tryCatch m h).
Proof.
  intros Hh w t w' Hrun.
  apply tryCatch_inv in Hrun as [(a & _ & [=])|(e & w1 & _ & Hrun)]. by eapply Hh.
Qed.

Lemma throwsErrors_emit ev : throwsErrors (emit ev).
Proof. by intros w t w' [=]. Qed.

Lemma throwsErrors_unlinkSync {A} (s : store A) f : throwsErrors (unlinkSync s f).
Proof.
  intros w t w'. unfold unlinkSync.
  destruct (get s (fs w)) as [d|]; [destruct (d !! f)|]; intros [= <- _]; by eexists.
Qed.

#[local] Instance emits_preorder (P : event -> Prop) : PreOrder (emits P).
Proof.
  split.
  - intros w. exists []. by rewrite app_nil_r.
  - intros w1 w2 w3 (t1 & H1 & HP1) (t2 & H2 & HP2). exists (t1 ++ t2).
    rewrite H2, H1, <- app_assoc. split; [done|]. by apply Forall_app.
Qed.

Lemma emit_emits (P : event -> Prop) ev : P ev -> preserves (emits P) (emit ev).
Proof. intros HP w r w' [= _ <-]. exists [ev]. split; [done|]. by constructor. Qed.

Lemma silent_emits {A} (P : event -> Prop) (m : M A) :
  (forall w r w', m w = (r, w') -> output w' = output w) -> preserves (emits P) m.
Proof. intros Hm w r w' Hrun. exists []. rewrite app_nil_r. split; [eauto|done]. Qed.

Lemma writeFileSync_output {A} (s : store A) f (data : A) w r w' :
  writeFileSync s f data w = (r, w') -> output w' = output w.
Proof. unfold writeFileSync. destruct (get s (fs w)); by intros [= _ <-]. Qed.

Lemma unlinkSync_output {A} (s : store A) f w r w' :
  unlinkSync s f w = (r, w') -> output w' = output w.
Proof.
  unfold unlinkSync. destruct (get s (fs w)) as [d|]; [destruct (d !! f)|];
    by intros [= _ <-].
Qed.

Lemma mkdirSync_output {A} (s : store A) w r w' :
  mkdirSync s w = (r, w') -> output w' = output w.
Proof. by intros [= _ <-]. Qed.

Lemma await_loadContent_emits (P : event -> Prop) f json :
  P (LoadContent f json) -> preserves (emits P) (await_loadContent f json).
Proof.
  intros HP w r w'. unfold await_loadContent.
  destruct (loadContent json (page w)) as [[e|c] b]; intros [= _ <-];
    exists [LoadContent f json]; (split; [done|by constructor]).
Qed.

Lemma await_close_emits (P : event -> Prop) :
  P Close -> preserves (emits P) await_close.
Proof.
  intros HP w r w'. unfold await_close.
  destruct (close (page w)) as [[e|] b]; intros [= _ <-];
    exists [Close]; (split; [done|by constructor]).
Qed.

Ltac trace_step :=
  lazymatch goal with
  | |- preserves ?R (ret _) => apply (preserves_ret R)
  | |- preserves ?R (throw _) => apply (preserves_throw R)
  | |- preserves ?R (bind _ _) => apply (preserves_bind R); [|intros ?]
  | |- preserves ?R (tryCatch _ _) => apply (preserves_tryCatch R); [|intros ?]
  | |- preserves ?R (forOf _ _ _) => apply (preserves_forOf R); intros ? ? _
  | |- preserves ?R (Array_map _ _) => apply (preserves_Array_map R); intros ? _
  | |- preserves _ (if ?b then _ else _) => destruct b
  | |- preserves _ (emit _) => apply emit_emits; exact I
  | |- preserves _ (console_log _) => apply emit_emits; exact I
  | |- preserves _ (console_error _) => apply emit_emits; exact I
  | |- preserves _ (await_loadContent _ _) => apply await_loadContent_emits; exact I
  | |- preserves _ await_close => apply await_close_emits; exact I
  | |- preserves _ (writeFileSync _ _ _) =>
      apply silent_emits; apply writeFileSync_output
  | |- preserves _ (unlinkSync _ _) =>
      apply silent_emits; apply unlinkSync_output
  | |- preserves _ (mkdirSync _) =>
      apply silent_emits; apply mkdirSync_output
  | |- preserves ?R _ =>
      apply (readonly_preserves R);
      first [ apply readdirSync_readonly | apply readFileSync_readonly
            | apply statSync_readonly | apply statSync_feeds_readonly
            | apply readdirSync_feeds_readonly | apply readdirSync_category_readonly
            | apply readFileSync_category_readonly | apply JSON_parse_readonly
            | apply htmlmin_minify_readonly ]
  end.

Lemma pass_reports_nothing : preserves (emits noReport) pass.
Proof.
  unfold pass, prepareDirectories, createRepositoryData, createCategoryData,
    createCategoryEntries, createSitesData, createSiteData, createEntryData,
    createAllEntriesData, readEntrySummary, loadEntryWithPuppeteer, evictOldCaches,
    evictStep, fillCache, fillStep, fillEntry, enrich.
  repeat trace_step.
Qed.

(** The block of the top-level [try] throws an [Error] object before the
    reconciler, or comes to the reconciler and ends as the reconciler does. *)
Lemma pass_inv w r w' :
  pass w = (r, w') ->
  (exists e, r = Throw (ErrorObject e))
  \/ exists w1 data w2 w3 w4,
       prepareDirectories (logged w [ConsoleLog "Preparing eleventy data"])
       = (Return tt, w1)
       /\ createRepositoryData (default "" GITHUB_REPOSITORY) customDomain w1
          = (Return data, w2)
       /\ createCategoryData w2 = (Return tt, w3)
       /\ createAllEntriesData w3 = (Return tt, w4)
       /\ loadEntryWithPuppeteer w4 = (r, w').
Proof.
  unfold pass, bind at 1. unfold console_log, emit. cbn [fst snd].
  change (mkWorld (fs w) (page w) (output w ++ [ConsoleLog "Preparing eleventy data"]))
    with (logged w [ConsoleLog "Preparing eleventy data"]).
  set (w0 := logged w _).
  destruct (prepareDirectories w0) as [[[]|t] w1] eqn:H1.
  2:{ rewrite (bind_Throw _ _ _ _ _ H1). intros [= <- _]. left.
      by apply throwsErrors_prepareDirectories in H1 as [e ->]; eauto. }
  rewrite (bind_Return _ _ _ _ _ H1).
  destruct (createRepositoryData (default "" GITHUB_REPOSITORY) customDomain w1)
    as [[data|t] w2] eqn:H2.
  2:{ rewrite (bind_Throw _ _ _ _ _ H2). intros [= <- _]. left.
      by apply throwsErrors_createRepositoryData in H2 as [e ->]; eauto. }
  rewrite (bind_Return _ _ _ _ _ H2).
  destruct (createCategoryData w2) as [[[]|t] w3] eqn:H3.
  2:{ rewrite (bind_Throw _ _ _ _ _ H3). intros [= <- _]. left.
      by apply throwsErrors_createCategoryData in H3 as [e ->]; eauto. }
  rewrite (bind_Return _ _ _ _ _ H3).
  destruct (createAllEntriesData w3) as [[[]|t] w4] eqn:H4.
  2:{ rewrite (bind_Throw _ _ _ _ _ H4). intros [= <- _]. left.
      by apply throwsErrors_createAllEntriesData in H4 as [e ->]; eauto. }
  rewrite (bind_Return _ _ _ _ _ H4). intros Hrec. right.
  by exists w1, data, w2, w3, w4.
Qed.

(** The handler of the top-level [try] reports and throws again everything
    but the string [ENOENT], which it holds back. *)
Lemma reportFailure_spec t w :
  reportFailure t w
  = if decide (t = StringValue "ENOENT") then (Return tt, w)
    else (Throw t, logged w [SetFailed t]).
Proof.
  unfold reportFailure, strict_neq_string. destruct t as [e|s]; [done|].
  destruct (String.eqb_spec s "ENOENT") as [->|Hne]; cbn [negb].
  - by rewrite decide_True.
  - rewrite decide_False; [done|]. by intros [= ->].
Qed.

(** X5. The top-level pass reports a failure to the CI host exactly when
    it throws: when it returns, no event of the run is a report; when it
    throws, the report of what it throws is the last event and the only
    report, and what it throws is not the string [ENOENT], the one value
    the handler holds back. *)
Theorem run_is_reported_exactly_when_it_throws w :
  exists t,
    Forall noReport t
    /\ match (prepareEleventyData w).1 with
       | Return _ => output (prepareEleventyData w).2 = output w ++ t
       | Throw thrownValue =>
           thrownValue <> StringValue "ENOENT"
           /\ output (prepareEleventyData w).2 = output w ++ t ++ [SetFailed thrownValue]
       end.
Proof.
  change prepareEleventyData with (tryCatch pass reportFailure). unfold tryCatch.
  destruct (pass w) as [[[]|thrownValue] w'] eqn:Hpass.
  - apply pass_reports_nothing in Hpass as (t & Ht & HP). by exists t.
  - apply pass_reports_nothing in Hpass as (t & Ht & HP). exists t. split; [done|].
    rewrite reportFailure_spec.
    destruct (decide (thrownValue = StringValue "ENOENT")) as [->|Hne];
      cbn [fst snd output logged]; [done|].
    split; [done|]. by rewrite Ht, <- app_assoc.
Qed.

Lemma loadEntryWithPuppeteer_needs_the_cache_directory w :
  workspaceReadabilityCache (fs w) = None ->
  exists e, loadEntryWithPuppeteer w = (Throw (ErrorObject e), w).
Proof.
  intros Hnone. unfold loadEntryWithPuppeteer, bind.
  unfold readdirSync at 1. cbn [get ENTRIES_DATA_PATH].
  destruct (entriesData (fs w)); [|by eexists].
  unfold readdirSync at 1. cbn [get WORKSPACE_READABILITY_CACHE_PATH].
  rewrite Hnone. by eexists.
Qed.

Lemma pass_before_reconciler_workspace :
  preserves (same workspaceReadabilityCache) prepareDirectories
  /\ (forall root custom,
        preserves (same workspaceReadabilityCache) (createRepositoryData root custom))
  /\ preserves (same workspaceReadabilityCache) createCategoryData
  /\ preserves (same workspaceReadabilityCache) createAllEntriesData.
Proof.
  split_and!; [|intros root custom|..];
    unfold prepareDirectories, createRepositoryData, createCategoryData,
      createCategoryEntries, createSitesData, createSiteData, createEntryData,
      createAllEntriesData, readEntrySummary;
    frame.
Qed.

(** X6. No phase of the pass makes the directory of the durable cache:
    started in a file system without it, the pass throws in every case (at
    the latest when the reconciler lists that directory), and the run is
    reported as failed. *)
Theorem run_fails_without_the_durable_cache_directory w :
  workspaceReadabilityCache (fs w) = None ->
  exists e,
    (prepareEleventyData w).1 = Throw (ErrorObject e)
    /\ last (output (prepareEleventyData w).2) = Some (SetFailed (ErrorObject e)).
Proof.
  intros Hnone.
  destruct pass_before_reconciler_workspace as (Hdirs & Hrepo & Hcat & Hall).
  assert (Hpass : exists t w', pass w = (Throw t, w')).
  { unfold pass, bind at 1. unfold console_log, emit. cbn [fst snd].
    set (w0 := mkWorld _ _ _).
    destruct (prepareDirectories w0) as [[[]|t] w1] eqn:H1;
      [|rewrite (bind_Throw _ _ _ _ _ H1); eauto].
    rewrite (bind_Return _ _ _ _ _ H1).
    destruct (createRepositoryData (default "" GITHUB_REPOSITORY) customDomain w1)
      as [[data|t] w2] eqn:H2; [|rewrite (bind_Throw _ _ _ _ _ H2); eauto].
    rewrite (bind_Return _ _ _ _ _ H2).
    destruct (createCategoryData w2) as [[[]|t] w3] eqn:H3;
      [|rewrite (bind_Throw _ _ _ _ _ H3); eauto].
    rewrite (bind_Return _ _ _ _ _ H3).
    destruct (createAllEntriesData w3) as [[[]|t] w4] eqn:H4;
      [|rewrite (bind_Throw _ _ _ _ _ H4); eauto].
    rewrite (bind_Return _ _ _ _ _ H4).
    apply Hdirs in H1. apply Hrepo in H2. apply Hcat in H3. apply Hall in H4.
    unfold same in *.
    destruct (loadEntryWithPuppeteer_needs_the_cache_directory w4) as [e He]; [|eauto].
    rewrite <- H4, <- H3, <- H2, <- H1. exact Hnone. }
  destruct Hpass as (t & w' & Hpass).
  assert (exists e, t = ErrorObject e) as [e ->].
  { destruct (pass_inv _ _ _ Hpass) as [[e [= ->]]|(w1 & data & w2 & w3 & w4 & H1 & H2
                                                     & H3 & H4 & Hrec)]; [by eexists|].
    apply Hdirs in H1. apply Hrepo in H2. apply Hcat in H3. apply Hall in H4.
    unfold same in *.
    destruct (loadEntryWithPuppeteer_needs_the_cache_directory w4) as [e He].
    { rewrite <- H4, <- H3, <- H2, <- H1. exact Hnone. }
    rewrite He in Hrec. injection Hrec as <- _. by eexists. }
  exists e.
  change prepareEleventyData with (tryCatch pass reportFailure). unfold tryCatch.
  rewrite Hpass, reportFailure_error. cbn [fst snd output logged].
  split; [done|]. apply last_snoc.
Qed.

(** *** The global index when it fails (lines 231-256) *)

Lemma readEntrySummary_readonly f : readonly (readEntrySummary f).
Proof.
  intros w r w'. unfold readEntrySummary. intros Hrun.
  apply bind_inv in Hrun as [(text & w1 & Htext & Hrun)|(e & Hrun & _)];
    [|by apply readFileSync_readonly in Hrun].
  apply readFileSync_readonly in Htext as ->.
  apply bind_inv in Hrun as [(json & w1 & Hjson & Hrun)|(e & Hrun & _)];
    [|by apply JSON_parse_readonly in Hrun].
  apply JSON_parse_readonly in Hjson as ->. by injection Hrun.
Qed.

Lemma Array_map_readonly {A B} (f : A -> M B) xs :
  (forall x, readonly (f x)) -> readonly (Array_map f xs).
Proof.
  intros Hf. induction xs as [|x xs IH]; intros w r w' Hrun; simpl in Hrun.
  - by injection Hrun.
  - apply bind_inv in Hrun as [(y & w1 & Hy & Hrun)|(e & Hrun & _)];
      [|by apply Hf in Hrun].
    apply Hf in Hy as ->.
    apply bind_inv in Hrun as [(ys & w1 & Hys & Hrun)|(e & Hrun & _)];
      [|by apply IH in Hrun].
    apply IH in Hys as ->. by injection Hrun.
Qed.

(** X7. The global indexing is all or nothing: when it throws (an entry
    file that cannot be read or parsed, a missing directory), the world is
    as it was, no index written; when it returns, the one change is the
    file [all.json] of the data output, which lists as many entries as the
    entries store has files, in descending order of date. *)
Theorem global_index_is_all_or_nothing w :
  match (createAllEntriesData w).1 with
  | Throw t => (createAllEntriesData w).2 = w /\ exists e, t = ErrorObject e
  | Return _ =>
      exists (store : gmap string (file EntryData)) (data : gmap string document) index,
        entriesData (fs w) = Some store
        /\ dataDir (fs w) = Some data
        /\ (createAllEntriesData w).2
           = with_fs (set DATA_PATH (Some (<["all.json" := AllEntries index]> data))
                        (fs w)) w
        /\ length index = size store
        /\ Sorted newerFirst index
  end.
Proof.
  destruct (createAllEntriesData w) as [[[]|t] w'] eqn:Hrun; cbn [fst snd].
  - unfold createAllEntriesData in Hrun.
    apply bind_inv in Hrun as [(names & w1 & Hnames & Hrun)|(? & _ & [=])].
    revert Hnames. unfold readdirSync. cbn [get ENTRIES_DATA_PATH].
    destruct (entriesData (fs w)) as [store|] eqn:Hstore; [|done]. intros [= <- <-].
    apply bind_inv in Hrun as [(l & w1 & Hl & Hrun)|(? & _ & [=])].
    apply readEntrySummaries_inv in Hl as [-> Hl].
    revert Hrun. unfold writeFileSync. cbn [get DATA_PATH].
    destruct (dataDir (fs w)) as [data|]; [|done]. intros [= <-].
    exists store, data, (Array_sort byDateDescending l). split_and!; try done.
    + rewrite Array_sort_perm. apply Forall2_length in Hl.
      by rewrite <- Hl, length_fmap, length_map_to_list.
    + apply Array_sort_sorted.
  - split; [|by apply throwsErrors_createAllEntriesData in Hrun].
    unfold createAllEntriesData in Hrun.
    apply bind_inv in Hrun as [(names & w1 & Hnames & Hrun)|(e & Hrun & _)];
      [|by apply readdirSync_readonly in Hrun].
    apply readdirSync_readonly in Hnames as ->.
    apply bind_inv in Hrun as [(l & w1 & Hl & Hrun)|(e & Hrun & _)].
    + apply (Array_map_readonly _ _ readEntrySummary_readonly) in Hl as ->.
      revert Hrun. unfold writeFileSync. by destruct (get DATA_PATH (fs w)); intros [= <-].
    + by apply (Array_map_readonly _ _ readEntrySummary_readonly) in Hrun.
Qed.

(** *** The repository file (lines 124-139) *)

Lemma split_slash_noSlash s : noSlash s -> split_slash s = [s].
Proof.
  unfold noSlash. induction s as [|c s IH]; [done|]. simpl. intros Hs.
  apply not_elem_of_cons in Hs as [Hc Hs].
  destruct (Ascii.eqb_spec c "/"); [done|]. by rewrite IH.
Qed.

Lemma split_slash_first owner rest :
  noSlash owner -> split_slash (owner +:+ String "/" rest) = owner :: split_slash rest.
Proof.
  unfold noSlash. induction owner as [|c owner IH]; [done|]. simpl. intros Hs.
  apply not_elem_of_cons in Hs as [Hc Hs].
  destruct (Ascii.eqb_spec c "/"); [done|]. by rewrite IH.
Qed.

(** X8. With the embedded data directory in place, [createRepositoryData]
    returns the record it writes to [github.json]; the repository path is
    empty when a custom domain is given or the root name has no slash, and
    for a root name [owner/repo], with or without more parts after it, it
    is [/repo]. *)
Theorem repository_is_the_second_part_of_the_root_name
  root custom w (embedded : gmap string document) :
  embeddedData (fs w) = Some embedded ->
  exists data,
    createRepositoryData root custom w
    = (Return data,
       with_fs (set EMBEDDED_DATA_PATH
                  (Some (<["github.json" := RepositoryFile data]> embedded)) (fs w)) w)
    /\ (custom <> "" -> repository data = "")
    /\ (custom = "" -> noSlash root -> repository data = "")
    /\ (custom = "" ->
        forall owner repo rest, noSlash owner -> noSlash repo ->
          root = owner +:+ "/" +:+ repo \/ root = owner +:+ "/" +:+ repo +:+ "/" +:+ rest ->
          repository data = "/" +:+ repo).
Proof.
  intros Hembedded. eexists. split.
  { unfold createRepositoryData, bind, writeFileSync, ret.
    cbn [get EMBEDDED_DATA_PATH]. rewrite Hembedded. reflexivity. }
  cbn [repository]. split_and!.
  - intros Hcustom. apply String.eqb_neq in Hcustom. by rewrite Hcustom.
  - intros -> Hroot. by rewrite (split_slash_noSlash _ Hroot).
  - intros -> owner repo rest Howner Hrepo [-> | ->].
    + change (owner +:+ "/" +:+ repo) with (owner +:+ String "/" repo).
      by rewrite (split_slash_first _ _ Howner), (split_slash_noSlash _ Hrepo).
    + change (owner +:+ "/" +:+ repo +:+ "/" +:+ rest)
        with (owner +:+ String "/" (repo +:+ String "/" rest)).
      rewrite (split_slash_first _ _ Howner), (split_slash_first _ _ Hrepo).
      cbn [length nth String.eqb negb andb].
      destruct (Z.ltb_spec 1 (Z.of_nat (S (S (length (split_slash rest))))));
        [done|lia].
Qed.

(** *** The directories (lines 85-100) *)

(** X9. Without the directory of the feeds [prepareDirectories] throws
    ENOENT and makes nothing. With it, it returns; each of the five output
    directories, and the data directory above four of them, exists
    afterwards with the files it had (a directory that was missing is
    empty); the feeds and the durable cache are not touched, the latter not
    even made; and a second call changes nothing. *)
Theorem prepareDirectories_keeps_what_is_there w :
  match feedsContent (fs w) with
  | None => prepareDirectories w = (Throw (ENOENT "stat" FEEDS_CONTENT_PATH), w)
  | Some _ =>
      let w' := (prepareDirectories w).2 in
      (prepareDirectories w).1 = Return tt
      /\ embeddedData (fs w') = Some (default ∅ (embeddedData (fs w)))
      /\ dataDir (fs w') = Some (default ∅ (dataDir (fs w)))
      /\ categoryData (fs w') = Some (default ∅ (categoryData (fs w)))
      /\ sitesData (fs w') = Some (default ∅ (sitesData (fs w)))
      /\ entriesData (fs w') = Some (default ∅ (entriesData (fs w)))
      /\ readabilityCache (fs w') = Some (default ∅ (readabilityCache (fs w)))
      /\ feedsContent (fs w') = feedsContent (fs w)
      /\ workspaceReadabilityCache (fs w') = workspaceReadabilityCache (fs w)
      /\ prepareDirectories w' = (Return tt, w')
  end.
Proof.
  destruct w as [[[c|] [e|] [d|] [cd|] [sd|] [ed|] [rc|] ws] p o];
    cbn [fs feedsContent]; try reflexivity; repeat split; reflexivity.
Qed.

(** *** What a run that returns has written *)

Lemma createRepositoryData_stores root custom w data w' :
  createRepositoryData root custom w = (Return data, w') ->
  exists e : gmap string document,
    embeddedData (fs w) = Some e
    /\ embeddedData (fs w') = Some (<["github.json" := RepositoryFile data]> e).
Proof.
  unfold createRepositoryData, bind, writeFileSync, ret. cbn [get EMBEDDED_DATA_PATH].
  destruct (embeddedData (fs w)) as [e|]; [|done]. intros [= <- <-]. by exists e.
Qed.

Lemma createCategoryData_stores w w' :
  createCategoryData w = (Return tt, w') ->
  exists cs (e d : gmap string document),
    embeddedData (fs w) = Some e /\ dataDir (fs w) = Some d
    /\ embeddedData (fs w') = Some (<["categories.json" := CategoriesIndex cs]> e)
    /\ dataDir (fs w') = Some (<["categories.json" := CategoriesIndex cs]> d).
Proof.
  unfold createCategoryData. intros Hrun.
  apply bind_inv in Hrun as [(categories & w1 & Hcs & Hrun)|(? & _ & [=])].
  apply readdirSync_feeds_readonly in Hcs as ->.
  apply bind_inv in Hrun as [(cs & w1 & Hloop & Hrun)|(? & _ & [=])].
  destruct (createCategoryData_loop_stores categories []) as [He Hd].
  apply He in Hloop as Hembedded. apply Hd in Hloop as Hdata.
  unfold same in Hembedded, Hdata.
  apply bind_inv in Hrun as [([] & w2 & Hw1 & Hw2)|(? & _ & [=])].
  revert Hw1 Hw2. unfold writeFileSync. cbn [get EMBEDDED_DATA_PATH DATA_PATH].
  rewrite <- Hembedded.
  destruct (embeddedData (fs w)) as [e|]; [|done]. intros [= <-].
  cbn [fs with_fs set EMBEDDED_DATA_PATH dataDir]. rewrite <- Hdata.
  destruct (dataDir (fs w)) as [d|]; [|done]. intros [= <-].
  by exists cs, e, d.
Qed.

Lemma createAllEntriesData_stores w w' :
  createAllEntriesData w = (Return tt, w') ->
  exists index (d : gmap string document),
    dataDir (fs w) = Some d
    /\ dataDir (fs w') = Some (<["all.json" := AllEntries index]> d)
    /\ embeddedData (fs w') = embeddedData (fs w).
Proof.
  unfold createAllEntriesData. intros Hrun.
  apply bind_inv in Hrun as [(names & w1 & Hnames & Hrun)|(? & _ & [=])].
  apply readdirSync_readonly in Hnames as ->.
  apply bind_inv in Hrun as [(l & w1 & Hl & Hrun)|(? & _ & [=])].
  apply (Array_map_readonly _ _ readEntrySummary_readonly) in Hl as ->.
  revert Hrun. unfold writeFileSync. cbn [get DATA_PATH].
  destruct (dataDir (fs w)) as [d|]; [|done]. intros [= <-]. by eexists _, d.
Qed.

Lemma loadEntryWithPuppeteer_stores :
  preserves (same embeddedData) loadEntryWithPuppeteer
  /\ preserves (same dataDir) loadEntryWithPuppeteer.
Proof.
  split; unfold loadEntryWithPuppeteer, evictOldCaches, evictStep, fillCache, fillStep,
    fillEntry, enrich; frame.
Qed.

(** A run that returns came to the reconciler: every phase before it
    returned, and the reconciler returned or threw the one value the
    handler holds back. *)
Lemma prepareEleventyData_returns w w' :
  prepareEleventyData w = (Return tt, w') ->
  exists w1 data w2 w3 w4 r,
    prepareDirectories (logged w [ConsoleLog "Preparing eleventy data"])
    = (Return tt, w1)
    /\ createRepositoryData (default "" GITHUB_REPOSITORY) customDomain w1
       = (Return data, w2)
    /\ createCategoryData w2 = (Return tt, w3)
    /\ createAllEntriesData w3 = (Return tt, w4)
    /\ loadEntryWithPuppeteer w4 = (r, w').
Proof.
  change prepareEleventyData with (tryCatch pass reportFailure). unfold tryCatch.
  destruct (pass w) as [[[]|t] w0] eqn:Hpass.
  - intros [= <-].
    destruct (pass_inv _ _ _ Hpass) as [[e [=]]|(w1 & data & w2 & w3 & w4 & Hrun)].
    by exists w1, data, w2, w3, w4, (Return tt).
  - rewrite reportFailure_spec. destruct (decide _) as [->|]; [|done]. intros [= <-].
    destruct (pass_inv _ _ _ Hpass) as [[e [=]]|(w1 & data & w2 & w3 & w4 & Hrun)].
    by exists w1, data, w2, w3, w4, (Throw (StringValue "ENOENT")).
Qed.

(** X10. A run that returns has been through every phase before the
    reconciler and has written the four index files: [github.json] and [categories.json] in the
    embedded data, [categories.json] (the same index) and [all.json] in the
    data output. *)
Theorem successful_run_has_written_the_index_files w w' :
  prepareEleventyData w = (Return tt, w') ->
  exists data cs index,
    embeddedData (fs w') ≫= (.!! "github.json") = Some (RepositoryFile data)
    /\ embeddedData (fs w') ≫= (.!! "categories.json") = Some (CategoriesIndex cs)
    /\ dataDir (fs w') ≫= (.!! "categories.json") = Some (CategoriesIndex cs)
    /\ dataDir (fs w') ≫= (.!! "all.json") = Some (AllEntries index).
Proof.
  intros (w1 & data & w2 & w3 & w4 & r & _ & Hrepo & Hcat & Hall & Hrec)
    %prepareEleventyData_returns.
  apply createRepositoryData_stores in Hrepo as (e & _ & He2).
  apply createCategoryData_stores in Hcat as (cs & e' & d & He2' & Hd2 & He3 & Hd3).
  apply createAllEntriesData_stores in Hall as (index & d' & Hd3' & Hd4 & He4).
  destruct loadEntryWithPuppeteer_stores as [He Hd].
  apply He in Hrec as He5. apply Hd in Hrec as Hd5. unfold same in He5, Hd5.
  rewrite He2 in He2'. injection He2' as <-.
  rewrite Hd3 in Hd3'. injection Hd3' as <-.
  exists data, cs, index. rewrite <- He5, <- Hd5, He4, He3, Hd4. cbn. split_and!.
  - by rewrite lookup_insert_ne, lookup_insert_eq.
  - by rewrite lookup_insert_eq.
  - by rewrite lookup_insert_ne, lookup_insert_eq.
  - by rewrite lookup_insert_eq.
Qed.

(** *** The sites store (lines 191-226) *)

Lemma materialize_entries_sites category st sh es :
  preserves (same sitesData)
    (Array_map (fun e =>
        bind (createEntryData category st sh e) (fun entryData =>
          ret (mkSiteEntryData (title entryData) (link entryData) (date entryData)
                 (author entryData) category st sh (entryHash entryData)))) es).
Proof. unfold createEntryData. frame. Qed.

Lemma createSiteData_sites category result s w r w' :
  createSiteData category result s w = (Return r, w') ->
  exists json (store : gmap string SiteDataWithEntries),
    siteFile (fs w) category s = Some (Json json)
    /\ r = result ++ [siteDataOf category s json]
    /\ sitesData (fs w) = Some store
    /\ sitesData (fs w')
       = Some (<[createHash (baseName s) +:+ dot_json := siteDataOf category s json]> store).
Proof.
  intros Hrun. pose proof Hrun as (json & Hfile & -> & _)%createSiteData_inv.
  exists json. unfold createSiteData in Hrun.
  apply bind_inv in Hrun as [(c & w1 & Hc & Hrun)|(? & _ & [=])].
  apply readFileSync_category_inv in Hc as [-> Hc].
  rewrite Hfile in Hc. injection Hc as <-.
  apply bind_inv in Hrun as [(json' & w1 & Hjson & Hrun)|(? & _ & [=])].
  apply JSON_parse_inv in Hjson as [-> [= <-]].
  apply bind_inv in Hrun as [(es & w1 & Hes & Hrun)|(? & _ & [=])].
  pose proof (materialize_entries_sites _ _ _ _ _ _ _ Hes) as Hsame. unfold same in Hsame.
  apply materialize_entries in Hes as [-> _].
  apply bind_inv in Hrun as [([] & w2 & Hwrite & Hrun)|(? & _ & [=])].
  injection Hrun as _ <-. revert Hwrite. unfold writeFileSync.
  cbn [get SITES_DATA_PATH]. rewrite <- Hsame.
  destruct (sitesData (fs w)) as [store|]; [|done]. intros [= <-].
  exists store. split_and!; try done. cbn.
  unfold siteDataOf, entriesOf, baseName. by rewrite map_map.
Qed.

(** X11. The file of a site record is named by the site's file name alone:
    when the site materializer runs over a file name under one category and
    then over the same file name under another, the second record replaces
    the first in the sites store, which ends with one file for the two. *)
Theorem site_records_of_one_file_name_share_one_file c1 c2 s w r1 w1 r2 w2 :
  createSitesData c1 [s] w = (Return r1, w1) ->
  createSitesData c2 [s] w1 = (Return r2, w2) ->
  exists json1 json2 (store : gmap string SiteDataWithEntries),
    siteFile (fs w) c1 s = Some (Json json1)
    /\ siteFile (fs w) c2 s = Some (Json json2)
    /\ r1 = [siteDataOf c1 s json1] /\ r2 = [siteDataOf c2 s json2]
    /\ sitesData (fs w) = Some store
    /\ sitesData (fs w1)
       = Some (<[createHash (baseName s) +:+ ".json" := siteDataOf c1 s json1]> store)
    /\ sitesData (fs w2)
       = Some (<[createHash (baseName s) +:+ ".json" := siteDataOf c2 s json2]> store).
Proof.
  unfold createSitesData. cbn [forOf]. intros H1 H2.
  apply bind_inv in H1 as [(r1' & w1' & H1 & [= <- <-])|(? & _ & [=])].
  apply bind_inv in H2 as [(r2' & w2' & H2 & [= <- <-])|(? & _ & [=])].
  pose proof (createSiteData_feeds _ _ _ _ _ _ H1) as Hfeeds. unfold same in Hfeeds.
  apply createSiteData_sites in H1 as (json1 & store & Hf1 & -> & Hs & Hs1).
  apply createSiteData_sites in H2 as (json2 & store1 & Hf2 & -> & Hs1' & Hs2).
  rewrite Hs1 in Hs1'. injection Hs1' as <-.
  exists json1, json2, store. split_and!; try done.
  - unfold siteFile in *. by rewrite Hfeeds.
  - by rewrite Hs2, insert_insert_eq.
Qed.

Lemma readFileSync_category_returns category s w text :
  siteFile (fs w) category s = Some text ->
  readFileSync_category category s w = (Return text, w).
Proof.
  unfold siteFile, readFileSync_category.
  destruct (feedsContent (fs w) ≫= _) as [[d|]|]; [|done..]. by intros ->.
Qed.

(** X12. The site materializer stops at the first feed file that is not
    JSON: it throws the syntax error of the parse, the files after it are
    not looked at, and the world is left as the files before it made it
    (their entries and site records stay written). *)
Theorem malformed_site_file_stops_the_materializer
  category good bad rest w r w1 text :
  createSitesData category good w = (Return r, w1) ->
  siteFile (fs w) category bad = Some (Malformed text) ->
  createSitesData category (good ++ bad :: rest) w
  = (Throw (SyntaxError "Unexpected token in JSON"), w1).
Proof.
  unfold createSitesData. intros Hgood Hbad.
  pose proof (createSitesData_feeds _ _ _ _ _ Hgood) as Hfeeds. unfold same in Hfeeds.
  rewrite forOf_app, (bind_Return _ _ _ _ _ Hgood). cbn [forOf].
  apply bind_Throw. unfold createSiteData.
  rewrite (bind_Return _ _ _ (Malformed text) w1); [reflexivity|].
  apply readFileSync_category_returns. unfold siteFile in *. by rewrite <- Hfeeds.
Qed.

(** *** The entry identifier and the comma (line 153) *)

Lemma string_app_assoc s1 s2 s3 : (s1 +:+ s2) +:+ s3 = s1 +:+ (s2 +:+ s3).
Proof.
  induction s1 as [|c s1 IH]; [done|].
  change (String c ((s1 +:+ s2) +:+ s3) = String c (s1 +:+ (s2 +:+ s3))).
  by rewrite IH.
Qed.

(** X13. The identifier does not tell where the title ends: an entry whose
    title is [t,x] with link [l] and an entry whose title is [t] with link
    [x,l] get the same identifier, so that materializing the second after
    the first replaces the record of the first, a different entry, in the
    one file they share. *)
Theorem entries_that_differ_in_where_the_comma_falls_share_one_file
  category st sh t x l d1 a1 d2 a2 w data1 w1 data2 w2 :
  createEntryData category st sh (mkEntry (t +:+ "," +:+ x) l d1 a1) w
  = (Return data1, w1) ->
  createEntryData category st sh (mkEntry t (x +:+ "," +:+ l) d2 a2) w1
  = (Return data2, w2) ->
  entryHash data1 = entryHash data2
  /\ title data1 <> title data2
  /\ entriesData (fs w1) ≫= (.!! (entryHash data1 +:+ ".json")) = Some (Json data1)
  /\ entriesData (fs w2) ≫= (.!! (entryHash data1 +:+ ".json")) = Some (Json data2).
Proof.
  intros H1 H2.
  apply createEntryData_inv in H1 as [(s1 & Hs1 & [= ->] & ->)|(_ & _ & ? & [=])].
  apply createEntryData_inv in H2 as [(s2 & Hs2 & [= ->] & ->)|(_ & _ & ? & [=])].
  cbn [entryHash entry title link fs with_fs set ENTRIES_DATA_PATH entriesData] in *.
  injection Hs2 as <-.
  assert (Hsame : (t +:+ "," +:+ x) +:+ "," +:+ l = t +:+ "," +:+ x +:+ "," +:+ l).
  { rewrite string_app_assoc. reflexivity. }
  split_and!.
  - by rewrite Hsame.
  - intros Heq. apply (f_equal String.length) in Heq.
    rewrite string_length_app in Heq. simpl in Heq. lia.
  - cbn. apply lookup_insert_eq.
  - cbn. rewrite Hsame. apply lookup_insert_eq.
Qed.

(** *** Fetches and releases of the fill loop (lines 296-319) *)






(** *** The three date sorts (lines 220, 253 and 352) *)

Lemma foldl_app_concat {A B} (f : A -> list B) (l : list A) (acc : list B) :
  foldl (fun acc x => acc ++ f x) acc l = acc ++ concat (f <$> l).
Proof.
  revert acc. induction l as [|x l IH]; intros acc; cbn.
  - by rewrite app_nil_r.
  - by rewrite IH, app_assoc.
Qed.

(** C7. The site materializer, the category aggregator and the global
    entry index each write their list sorted by date, newest first, with
    the entries of equal date in the order they had before the sort (no
    second key breaks a tie): the record of a site holds the entries of the
    feed, those of one date in the order of the feed; the file of a
    category holds the entries of its site records, site after site, those
    of one date in that order; the global index holds the entries of the
    entry files, those of one date in the order the files are listed. *)
Theorem date_sorts_keep_the_order_of_equal_dates :
  (forall category result site w r w',
      createSiteData category result site w = (Return r, w') ->
      exists json written,
        siteFile (fs w) category site = Some (Json json)
        /\ r = result ++ [written]
        /\ sitesData (fs w') ≫= (.!! (createHash (baseName site) +:+ dot_json))
           = Some written
        /\ stablySorted (summary <$> entriesOf category site json) (entries written))
  /\ (forall categoriesData category w r w',
        createCategoryEntries categoriesData category w = (Return r, w') ->
        exists sitesData w1 written,
          createSitesData category (siteNames (fs w) category) w
          = (Return sitesData, w1)
          /\ categoryData (fs w') ≫= (.!! (category +:+ dot_json)) = Some written
          /\ stablySorted (concat (entries <$> sitesData)) written)
  /\ (forall w w' store,
        entriesData (fs w) = Some store ->
        createAllEntriesData w = (Return tt, w') ->
        exists l written,
          Forall2 (fun fileName s => exists data : EntryData,
                      store !! fileName = Some (Json data) /\ s = summary data)
            (map_to_list store).*1 l
          /\ dataDir (fs w') ≫= (.!! "all.json") = Some (AllEntries written)
          /\ stablySorted l written).
Proof.
  split_and!.
  - intros category result site w r w'
      (json & store & Hfile & -> & _ & Hstore)%createSiteData_sites.
    exists json, (siteDataOf category site json). split; [done|]. split; [done|].
    split; [rewrite Hstore; apply lookup_insert_eq|].
    exact (Array_sort_stable (summary <$> entriesOf category site json)).
  - intros categoriesData category w r w'
      (sitesData & w1 & Hsites & Hfile)%category_entries_are_sorted.
    exists sitesData, w1. eexists. split; [done|]. split; [exact Hfile|].
    pose proof (foldl_app_concat entries sitesData []) as Hconcat.
    cbn [app] in Hconcat. rewrite <- Hconcat. apply Array_sort_stable.
  - intros w w' store Hstore (l & Hl & Hfile)%(index_entries_are_sorted _ _ _ Hstore).
    exists l. eexists. split; [done|]. split; [exact Hfile|]. apply Array_sort_stable.
Qed.

(** *** Sorting what is sorted (lines 220 and 348-356) *)

Lemma Array_sort_sorted_id l :
  Sorted newerFirst l -> Array_sort byDateDescending l = l.
Proof.
  induction 1 as [|x l Hl IH Hhd]; [done|]. cbn [Array_sort foldr].
  change (foldr (sort_insert byDateDescending) [] l)
    with (Array_sort byDateDescending l).
  rewrite IH. destruct Hhd as [|y l' Hxy]; [done|]. cbn [sort_insert].
  unfold byDateDescending at 1. unfold newerFirst in Hxy.
  by destruct (Z.leb_spec (se_date y - se_date x) 0); [|lia].
Qed.

(** X15. The sort of the category aggregator leaves a list in descending
    order of date as it is, so sorting twice is sorting once; for a
    category of one site, whose entries the site materializer has sorted,
    the file of the category holds the very list of the site record. *)
Theorem category_of_one_site_lists_the_site_entries categoriesData category s w r w' :
  createCategoryEntries categoriesData category w = (Return r, w') ->
  siteNames (fs w) category = [s] ->
  (forall l, Array_sort byDateDescending (Array_sort byDateDescending l)
             = Array_sort byDateDescending l)
  /\ exists json,
       siteFile (fs w) category s = Some (Json json)
       /\ categoryData (fs w') ≫= (.!! (category +:+ ".json"))
          = Some (entries (siteDataOf category s json)).
Proof.
  intros Hrun Hnames. split.
  { intros l. apply Array_sort_sorted_id, Array_sort_sorted. }
  apply category_entries_are_sorted in Hrun as (sitesData & w1 & Hsites & Hfile).
  rewrite Hnames in Hsites. unfold createSitesData in Hsites. cbn [forOf] in Hsites.
  apply bind_inv in Hsites as [(r1 & w2 & Hsite & [= <- <-])|(? & _ & [=])].
  apply createSiteData_inv in Hsite as (json & Hjson & -> & _).
  exists json. split; [done|].
  change (category +:+ ".json") with (category +:+ dot_json).
  rewrite Hfile. cbn [foldl app entries siteDataOf].
  f_equal. apply Array_sort_sorted_id, Array_sort_sorted.
Qed.

(** *** What the reconciler leaves alone (lines 258-321) *)

#[local] Instance keepsFiles_preorder {A} (g : FileSystem -> option (gmap string A)) :
  PreOrder (keepsFiles g).
Proof. split; [by intros w k | intros w1 w2 w3 H1 H2 k Hk; by apply H2, H1]. Qed.

#[local] Instance addsNoFile_preorder {A} (g : FileSystem -> option (gmap string A)) :
  PreOrder (addsNoFile g).
Proof. split; [by intros w k | intros w1 w2 w3 H1 H2 k v Hk; by apply H1, H2]. Qed.

Lemma same_keepsFiles {A B} (g : FileSystem -> option (gmap string A)) (m : M B) :
  preserves (same g) m -> preserves (keepsFiles g) m.
Proof. intros Hm w r w' Hrun k. apply Hm in Hrun. unfold same in Hrun. by rewrite Hrun. Qed.

Lemma same_addsNoFile {A B} (g : FileSystem -> option (gmap string A)) (m : M B) :
  preserves (same g) m -> preserves (addsNoFile g) m.
Proof. intros Hm w r w' Hrun k v. apply Hm in Hrun. unfold same in Hrun. by rewrite Hrun. Qed.

Lemma writeFileSync_keepsFiles f data :
  preserves (keepsFiles readabilityCache) (writeFileSync READABILITY_CACHE_PATH f data).
Proof.
  intros w r w'. unfold writeFileSync. cbn [get READABILITY_CACHE_PATH].
  destruct (readabilityCache (fs w)) as [d|] eqn:Hd; intros [= _ <-] k; [|done].
  cbn. rewrite Hd. cbn. intros [v Hv].
  destruct (decide (f = k)) as [->|Hne];
    [rewrite lookup_insert_eq|rewrite lookup_insert_ne by done]; eauto.
Qed.

Lemma unlinkSync_addsNoFile f :
  preserves (addsNoFile workspaceReadabilityCache)
    (unlinkSync WORKSPACE_READABILITY_CACHE_PATH f).
Proof.
  intros w r w'. unfold unlinkSync. cbn [get WORKSPACE_READABILITY_CACHE_PATH].
  destruct (workspaceReadabilityCache (fs w)) as [d|] eqn:Hd; [|by intros [= _ <-] k v].
  destruct (d !! f); intros [= _ <-] k v; [|done].
  cbn. rewrite Hd. cbn. by intros [_ Hv]%lookup_delete_Some.
Qed.

Ltac cache_step :=
  lazymatch goal with
  | |- preserves ?R (ret _) => apply (preserves_ret R)
  | |- preserves ?R (throw _) => apply (preserves_throw R)
  | |- preserves ?R (bind _ _) => apply (preserves_bind R); [|intros ?]
  | |- preserves ?R (tryCatch _ _) => apply (preserves_tryCatch R); [|intros ?]
  | |- preserves ?R (forOf _ _ _) => apply (preserves_forOf R); intros ? ? _
  | |- preserves _ (if ?b then _ else _) => destruct b
  | |- preserves (keepsFiles _) (writeFileSync READABILITY_CACHE_PATH _ _) =>
      apply writeFileSync_keepsFiles
  | |- preserves (addsNoFile _) (unlinkSync WORKSPACE_READABILITY_CACHE_PATH _) =>
      apply unlinkSync_addsNoFile
  | |- preserves (keepsFiles _) _ => apply same_keepsFiles; frame_step
  | |- preserves (addsNoFile _) _ => apply same_addsNoFile; frame_step
  end.

Lemma loadEntryWithPuppeteer_frame :
  preserves (same feedsContent) loadEntryWithPuppeteer
  /\ preserves (same categoryData) loadEntryWithPuppeteer
  /\ preserves (same sitesData) loadEntryWithPuppeteer
  /\ preserves (same entriesData) loadEntryWithPuppeteer.
Proof.
  split_and!;
    unfold loadEntryWithPuppeteer, evictOldCaches, evictStep, fillCache, fillStep,
      fillEntry, enrich; frame.
Qed.

Lemma loadEntryWithPuppeteer_caches :
  preserves (keepsFiles readabilityCache) loadEntryWithPuppeteer
  /\ preserves (addsNoFile workspaceReadabilityCache) loadEntryWithPuppeteer.
Proof.
  split;
    unfold loadEntryWithPuppeteer, evictOldCaches, evictStep, fillCache, fillStep,
      fillEntry, enrich; repeat cache_step.
Qed.

(** X16. The reconciler changes the two caches and nothing else: the
    feeds and the stores of the embedded data, the data output, the
    categories, the sites and the entries are as they were, however the
    reconciler ends; no file of the output cache is removed, and no file
    is added to the durable cache nor its content changed. *)
Theorem reconciler_changes_only_the_caches w :
  let w' := (loadEntryWithPuppeteer w).2 in
  feedsContent (fs w') = feedsContent (fs w)
  /\ embeddedData (fs w') = embeddedData (fs w)
  /\ dataDir (fs w') = dataDir (fs w)
  /\ categoryData (fs w') = categoryData (fs w)
  /\ sitesData (fs w') = sitesData (fs w)
  /\ entriesData (fs w') = entriesData (fs w)
  /\ keepsFiles readabilityCache w w'
  /\ addsNoFile workspaceReadabilityCache w w'.
Proof.
  destruct (loadEntryWithPuppeteer w) as [r w'] eqn:Hrun. cbn [snd].
  destruct loadEntryWithPuppeteer_frame as (Hf & Hc & Hs & He).
  destruct loadEntryWithPuppeteer_stores as (Hem & Hd).
  destruct loadEntryWithPuppeteer_caches as (Hk & Ha).
  split_and!; [symmetry; by eapply Hf|symmetry; by eapply Hem|symmetry; by eapply Hd
              |symmetry; by eapply Hc|symmetry; by eapply Hs|symmetry; by eapply He
              |by eapply Hk|by eapply Ha].
Qed.

(** *** A file among the category directories (lines 330-334) *)

Lemma throwsErrors_createCategoryEntries categoriesData category :
  throwsErrors (createCategoryEntries categoriesData category).
Proof.
  unfold createCategoryEntries, createSitesData, createSiteData, createEntryData.
  repeat errors_step.
Qed.

Lemma stray_file_stops_the_loop categories categoriesData w c
    (d : gmap string feed_node) :
  feedsContent (fs w) = Some d -> d !! c = Some RegularFile -> c ∈ categories ->
  exists e w',
    forOf categories categoriesData createCategoryEntries w = (Throw (ErrorObject e), w').
Proof.
  revert categoriesData w.
  induction categories as [|g categories IH]; intros acc w Hd Hc Hin;
    [by apply elem_of_nil in Hin|].
  cbn [forOf].
  destruct (createCategoryEntries acc g w) as [[r|t] w1] eqn:Hstep.
  - rewrite (bind_Return _ _ _ _ _ Hstep).
    apply elem_of_cons in Hin as [->|Hin].
    + exfalso. revert Hstep. unfold createCategoryEntries, bind, readdirSync_category.
      rewrite Hd. cbn. by rewrite Hc.
    + apply createCategoryEntries_feeds in Hstep. unfold same in Hstep.
      apply (IH r w1); [by rewrite <- Hstep|done..].
  - rewrite (bind_Throw _ _ _ _ _ Hstep).
    destruct (throwsErrors_createCategoryEntries _ _ _ _ _ Hstep) as [e ->]. eauto.
Qed.

(** X17. A regular file among the category directories of the feeds
    makes the category aggregation throw (at the latest when it lists that
    file as a directory), and neither [categories.json] is written: the
    embedded data and the data output are as they were. *)
Theorem stray_file_among_categories_aborts_the_aggregation w c
    (d : gmap string feed_node) :
  feedsContent (fs w) = Some d -> d !! c = Some RegularFile ->
  exists e,
    (createCategoryData w).1 = Throw (ErrorObject e)
    /\ embeddedData (fs (createCategoryData w).2) = embeddedData (fs w)
    /\ dataDir (fs (createCategoryData w).2) = dataDir (fs w).
Proof.
  intros Hd Hc. unfold createCategoryData.
  rewrite (bind_Return _ _ _ (map_to_list d).*1 w)
    by (unfold readdirSync_feeds; by rewrite Hd).
  destruct (stray_file_stops_the_loop (map_to_list d).*1 [] w c d) as (e & w' & Hloop);
    [done..|by apply readdirSync_names|].
  rewrite (bind_Throw _ _ _ _ _ Hloop). cbn [fst snd]. exists e. split; [done|].
  destruct (createCategoryData_loop_stores (map_to_list d).*1 []) as [He Hdata].
  apply He in Hloop as Hembedded. apply Hdata in Hloop. unfold same in *. by split.
Qed.

(** A run is its result and its final world. *)
Lemma run_of_result {A} (m : M A) (w : World) (r : Result A) :
  (m w).1 = r -> m w = (r, (m w).2).
Proof. intros <-. by destruct (m w). Qed.

End Properties.

(** ** The properties on the sample runs *)

#[local] Existing Instance sample_collaborators.

Example createHash_abc :
  createHash "abc"
  = "ba7816bf8f01cfea414140de5dae2223b00361a396177a9cb410ff61f20015ad".
Proof. vm_compute. reflexivity. Qed.

Example createHash_empty :
  createHash ""
  = "e3b0c44298fc1c149afbf4c8996fb92427ae41e4649b934ca495991b7852b855".
Proof. vm_compute. reflexivity. Qed.

Example createHash_two_blocks :
  createHash "abcdbcdecdefdefgefghfghighijhijkijkljklmklmnlmnomnopnopq"
  = "248d6a61d20638b8e5c026930c3e6039a33ce45964ff2167f6ecedd419db06c1".
Proof. vm_compute. reflexivity. Qed.

Example slice0_short_name : slice0 "abc" (strlen "abc" - strlen dot_json) = "a".
Proof. reflexivity. Qed.

Example substring0_short_name : substring0 "abc" (strlen "abc" - strlen dot_json) = "".
Proof. reflexivity. Qed.

Example sort_keeps_entries_of_equal_date_in_order :
  se_title <$> Array_sort byDateDescending
    [mkSiteEntryData "a" "" 1 "" "" "" "" ""; mkSiteEntryData "b" "" 2 "" "" "" "" "";
     mkSiteEntryData "c" "" 1 "" "" "" "" ""; mkSiteEntryData "d" "" 2 "" "" "" "" ""]
  = ["b"; "d"; "a"; "c"].
Proof. reflexivity. Qed.

Example repository_of_root_name :
  (createRepositoryData "llun/feeds" "" sample_prepared).1
  = Return (mkRepositoryData "/feeds")
  /\ (createRepositoryData "llun/feeds" "feeds.llun.dev" sample_prepared).1
     = Return (mkRepositoryData "")
  /\ (createRepositoryData "feeds" "" sample_prepared).1 = Return (mkRepositoryData "").
Proof. vm_compute. repeat split; reflexivity. Qed.

Example malformed_feed_fails_the_run :
  let t := SyntaxError "Unexpected token in JSON" in
  (prepareEleventyData sample_malformed).1 = Throw t
  /\ last (output (prepareEleventyData sample_malformed).2) = Some (SetFailed t).
Proof. vm_compute. split; reflexivity. Qed.

(** A thrown string ['ENOENT'] is the one value the handler of line 385
    holds back. *)
Example handler_holds_back_the_string w :
  reportFailure (StringValue "ENOENT") w = (Return tt, w)
  /\ reportFailure (StringValue "EACCES") w
     = (Throw (StringValue "EACCES"), logged w [SetFailed (StringValue "EACCES")]).
Proof. split; reflexivity. Qed.

Example protocol_rejects_two_fetches json :
  foldl protocol (Some Released) [LoadContent "a" json; LoadContent "b" json] = None.
Proof. reflexivity. Qed.

Example protocol_rejects_unreleased_iteration json :
  foldl protocol (Some Released) [LoadContent "a" json; Iteration "b"; Close] = None.
Proof. reflexivity. Qed.

(** The whole pass over the sample: the three entries are materialized
    under the hash of their title and link, the index lists them newest
    first with the two of equal date in the order of the store, and the one
    entry with content is cached. *)
Example sample_pass :
  let w := (prepareEleventyData sample_world).2 in
  (prepareEleventyData sample_world).1 = Return tt
  /\ ((fun d => (map_to_list d).*1) <$> entriesData (fs w))
     = Some [createHash "E2,https://a/2" +:+ ".json";
             createHash "E1,https://a/1" +:+ ".json";
             createHash "E3,https://a/3" +:+ ".json"]
  /\ ((fun d => (map_to_list d).*1) <$> sitesData (fs w))
     = Some [createHash "a" +:+ ".json"]
  /\ (dataDir (fs w) ≫= (.!! "all.json"))
     = Some (AllEntries
               (summary <$> [mkEntryData sample_entry3 "A" (createHash "a")
                               (createHash "E3,https://a/3") "tech";
                             mkEntryData sample_entry2 "A" (createHash "a")
                               (createHash "E2,https://a/2") "tech";
                             mkEntryData sample_entry1 "A" (createHash "a")
                               (createHash "E1,https://a/1") "tech"]))
  /\ ((fun d => (map_to_list d).*1) <$> readabilityCache (fs w))
     = Some [createHash "E1,https://a/1" +:+ ".json"].
Proof. vm_compute. repeat split; reflexivity. Qed.

Lemma entry_identifier_sample :
  let data := mkEntryData sample_entry1 "A" (createHash "a")
                (createHash (title sample_entry1 +:+ "," +:+ link sample_entry1))
                "tech" in
  let w' := (createEntryData "tech" "A" (createHash "a") sample_entry1
               sample_prepared).2 in
  createEntryData "tech" "A" (createHash "a") sample_entry1 sample_prepared
  = (Return data, w')
  /\ entriesData (fs w') ≫= (.!! (entryHash data +:+ ".json")) = Some (Json data).
Proof.
  intros data w'.
  assert (Hrun :
    createEntryData "tech" "A" (createHash "a") sample_entry1 sample_prepared
    = (Return data, w')) by (vm_compute; reflexivity).
  split; [exact Hrun|].
  exact (proj1 (proj2 (entry_identifier_is_hash_of_title_and_link
                         _ _ _ _ _ _ _ Hrun))).
Defined.

Lemma eviction_sample :
  exists cache',
    workspaceReadabilityCache (fs (loadEntryWithPuppeteer sample_reconcile).2)
    = Some cache'
    /\ cache' !! "A.json" = None
    /\ cache' !! "B.json" = sample_cache !! "B.json"
    /\ cache' !! "C.json" = sample_cache !! "C.json".
Proof.
  destruct (eviction_removes_exactly_stale_cache_files sample_reconcile
              sample_current sample_cache
              (loadEntryWithPuppeteer sample_reconcile).1
              (loadEntryWithPuppeteer sample_reconcile).2)
    as (cache' & Hcache & Hkeep & Hdrop).
  - reflexivity.
  - reflexivity.
  - vm_compute. reflexivity.
  - exists cache'. split; [exact Hcache|]. split; [|split].
    + apply Hdrop. vm_compute. reflexivity.
    + apply Hkeep. vm_compute. eexists. reflexivity.
    + apply Hkeep. vm_compute. eexists. reflexivity.
Defined.

Lemma cached_entry_sample :
  is_Some (workspaceReadabilityCache (fs sample_reconcile) ≫= (.!! (cacheFile "B.json")))
  /\ (forall json,
        LoadContent "B.json" json
          ∈ output (fillCache ["B.json"; "D.json"] sample_reconcile).2 ->
        LoadContent "B.json" json ∈ output sample_reconcile)
  /\ workspaceReadabilityCache (fs (fillCache ["B.json"; "D.json"] sample_reconcile).2)
     = workspaceReadabilityCache (fs sample_reconcile).
Proof.
  assert (Hcached : is_Some (workspaceReadabilityCache (fs sample_reconcile)
                               ≫= (.!! (cacheFile "B.json"))))
    by (vm_compute; eexists; reflexivity).
  split; [exact Hcached|].
  exact (cached_entries_are_not_fetched_again ["B.json"; "D.json"] sample_reconcile
           "B.json" Hcached).
Defined.

(** Where the release call of the handler rejects, an error that arises
    while an entry is enriched does leave the reconciler: the fetch of the
    entry C fails, the handler logs the failure and calls [close], which
    rejects, and nothing catches that; the loop does not come to the
    entries B and D. *)
Lemma release_failure_in_the_handler_aborts_the_reconciler :
  entriesData (fs (sample_flaky_world true)) ≫= (.!! "C.json")
  = Some (Json (sample_record "C" "https://a/3"))
  /\ @attemptOf sample_flaky (sample_record "C" "https://a/3") (sample_flaky_world true)
     = Failed
  /\ @loadEntryWithPuppeteer sample_flaky (sample_flaky_world true)
     = (Throw (ErrorObject (mkError "Error" None "Target closed")),
        @mkWorld sample_flaky (fs (sample_flaky_world true)) false
          [ConsoleLog "Delete old caches 0"; Iteration "C.json";
           ConsoleLog "C - Load https://a/3";
           LoadContent "C.json" (sample_record "C" "https://a/3");
           ConsoleLog "C - Fail to load https://a/3"; Close]).
Proof. vm_compute. repeat split; reflexivity. Qed.

Lemma isolation_sample :
  let w := sample_flaky_world false in
  let w1 := (@fillCache sample_flaky ["C.json"] w).2 in
  @fillCache sample_flaky ["C.json"] w = (Return tt, w1)
  /\ @blockReleaseFails sample_flaky (sample_record "B" "https://a/2") w1 = true
  /\ @handlerErrorOf sample_flaky (sample_record "B" "https://a/2") w1 = None
  /\ exists w2,
       @fillStep sample_flaky tt "B.json" w1 = (Return tt, w2)
       /\ @fillCache sample_flaky (["C.json"] ++ "B.json" :: ["D.json"]) w
          = @fillCache sample_flaky ["D.json"] w2
       /\ fs w2 = fs w1.
Proof.
  intros w w1.
  assert (Hbefore : @fillCache sample_flaky ["C.json"] w = (Return tt, w1))
    by (apply (run_of_result (@fillCache sample_flaky ["C.json"]) w);
        vm_compute; reflexivity).
  assert (Hjson : entriesData (fs w1) ≫= (.!! "B.json")
                  = Some (Json (sample_record "B" "https://a/2")))
    by (vm_compute; reflexivity).
  assert (Hfresh : workspaceReadabilityCache (fs w1) ≫= (.!! (cacheFile "B.json")) = None)
    by (vm_compute; reflexivity).
  assert (Hfail : forall minified,
            @attemptOf sample_flaky (sample_record "B" "https://a/2") w1
            <> Enriched minified)
    by (intros minified; vm_compute; discriminate).
  assert (Hhandler : @handlerErrorOf sample_flaky (sample_record "B" "https://a/2") w1
                     = None)
    by (vm_compute; reflexivity).
  split; [exact Hbefore|]. split; [vm_compute; reflexivity|]. split; [exact Hhandler|].
  destruct (enrichment_errors_are_isolated_when_the_handler_releases
              ["C.json"] "B.json" ["D.json"] w w1 (sample_record "B" "https://a/2")
              Hbefore Hjson Hfresh Hfail Hhandler) as (w2 & Hstep & Hloop & Hfs & _).
  exists w2. split; [exact Hstep|]. split; [exact Hloop|exact Hfs].
Defined.

(** The three entries of the sample feed: E1 and E2 have one date and are
    kept in the order of the feed, after the newer E3. *)
Lemma date_sort_sample :
  let w' := (createSiteData "tech" [] "a.json" sample_prepared).2 in
  createSiteData "tech" [] "a.json" sample_prepared
  = (Return ([] ++ [siteDataOf "tech" "a.json" sample_site]), w')
  /\ exists written,
       sitesData (fs w') ≫= (.!! (createHash (baseName "a.json") +:+ dot_json))
       = Some written
       /\ stablySorted (summary <$> entriesOf "tech" "a.json" sample_site)
            (entries written)
       /\ se_title <$> entries written = ["E3"; "E1"; "E2"].
Proof.
  intros w'.
  assert (Hrun : createSiteData "tech" [] "a.json" sample_prepared
                 = (Return ([] ++ [siteDataOf "tech" "a.json" sample_site]), w'))
    by (apply (run_of_result (createSiteData "tech" [] "a.json") sample_prepared);
        vm_compute; reflexivity).
  split; [exact Hrun|].
  destruct (proj1 date_sorts_keep_the_order_of_equal_dates _ _ _ _ _ _ Hrun)
    as (json & written & Hfile & Hr & Hstore & Hsorted).
  assert (Hsite : siteFile (fs sample_prepared) "tech" "a.json" = Some (Json sample_site))
    by (vm_compute; reflexivity).
  rewrite Hsite in Hfile. injection Hfile as <-.
  apply app_inv_head in Hr. injection Hr as <-.
  exists (siteDataOf "tech" "a.json" sample_site).
  split; [exact Hstore|]. split; [exact Hsorted|]. vm_compute. reflexivity.
Defined.

Lemma fatal_error_sample :
  fatalPhase sample_without_contents (ENOENT "stat" FEEDS_CONTENT_PATH)
    (logged sample_without_contents [ConsoleLog "Preparing eleventy data"])
  /\ prepareEleventyData sample_without_contents
     = (Throw (ENOENT "stat" FEEDS_CONTENT_PATH),
        logged (logged sample_without_contents [ConsoleLog "Preparing eleventy data"])
          [SetFailed (ENOENT "stat" FEEDS_CONTENT_PATH)]).
Proof.
  assert (Hfatal : fatalPhase sample_without_contents (ENOENT "stat" FEEDS_CONTENT_PATH)
            (logged sample_without_contents [ConsoleLog "Preparing eleventy data"]))
    by (left; reflexivity).
  split; [exact Hfatal|].
  exact (proj1 (fatal_errors_are_reported_and_rethrown _ _ _ Hfatal)).
Defined.

Lemma site_identifier_sample :
  let r1 := [siteDataOf "tech" "a.json" sample_site] in
  let r2 := [siteDataOf "tech" "a.json" (mkSite "A, renamed" "https://a" 2 [])] in
  List.map sd_siteHash (List.map site r1)
  = List.map (fun s => createHash (baseName s)) ["a.json"]
  /\ List.map sd_siteHash (List.map site r2) = List.map sd_siteHash (List.map site r1).
Proof.
  intros r1 r2.
  assert (Hrun1 :
    createSitesData "tech" ["a.json"] sample_prepared
    = (Return r1, (createSitesData "tech" ["a.json"] sample_prepared).2))
    by (vm_compute; reflexivity).
  assert (Hrun2 :
    createSitesData "tech" ["a.json"] sample_renamed
    = (Return r2, (createSitesData "tech" ["a.json"] sample_renamed).2))
    by (vm_compute; reflexivity).
  destruct (site_identifier_depends_on_file_name_only _ _ _ _ _ _ _ _ _ Hrun1 Hrun2)
    as (H1 & H2 & _).
  split; [exact H1 | exact H2].
Defined.

Lemma shared_entry_sample :
  keyedByIdentifier (recordAll (materialized (fs sample_shared)) ∅)
  /\ entriesData (fs (createCategoryData sample_shared).2)
     = Some (recordAll (materialized (fs sample_shared)) ∅).
Proof.
  assert (Hkeyed : keyedByIdentifier (∅ : gmap string (file EntryData))).
  { intros f data Hf. rewrite lookup_empty in Hf. discriminate Hf. }
  destruct (entries_store_keeps_one_record_per_title_and_link sample_shared
              (createCategoryData sample_shared).2
              (createAllEntriesData (createCategoryData sample_shared).2).2
              ∅ eq_refl Hkeyed) as (Hstore & Hkeyed1 & _).
  - vm_compute. reflexivity.
  - vm_compute. reflexivity.
  - split; [exact Hkeyed1 | exact Hstore].
Defined.

(** In the store of that run the one file of the shared entry holds the
    record of the category processed last. *)
Example shared_entry_record :
  recordAll (materialized (fs sample_shared)) ∅ !! entryFile sample_entry1
  = Some (Json (mkEntryData sample_entry1 "A" (createHash "a")
                  (identifier sample_entry1) "tech"))
  /\ size (recordAll (materialized (fs sample_shared)) ∅) = 3%nat.
Proof. vm_compute. split; reflexivity. Qed.

(** C9. The eviction loop at a file that is listed and already gone: the
    error of [unlinkSync], an [Error] object whose code is ENOENT, reaches
    the handler of the top-level pass, where the comparison of line 385
    (of the object with the string ['ENOENT']) does not hold it back: the
    run is reported as failed and the error is thrown again. The loop of
    line 285 compares [error.code] instead. *)
Lemma eviction_of_a_file_already_gone_fails_the_run :
  tryCatch (evictOldCaches ["A.json"]) reportFailure sample_uncached
  = (Throw (ENOENT "unlink" "data/readability/A.json"),
     logged sample_uncached [SetFailed (ENOENT "unlink" "data/readability/A.json")]).
Proof. vm_compute. reflexivity. Qed.

(** ** The further properties on the sample runs *)

Lemma enrichment_sample :
  entriesData (fs sample_uncached) ≫= (.!! "D.json")
  = Some (Json (sample_record "D" "https://a/1"))
  /\ (fillEntry "D.json" sample_uncached).1 = Return tt
  /\ readabilityCache (fs (fillEntry "D.json" sample_uncached).2)
     = Some (<[cacheFile "D.json" :=
                 mkReadabilityData (sample_record "D" "https://a/1") "<p>one</p>"]> ∅).
Proof.
  assert (Hjson : entriesData (fs sample_uncached) ≫= (.!! "D.json")
                  = Some (Json (sample_record "D" "https://a/1")))
    by (vm_compute; reflexivity).
  assert (Hfresh : workspaceReadabilityCache (fs sample_uncached)
                     ≫= (.!! (cacheFile "D.json")) = None)
    by (vm_compute; reflexivity).
  assert (Hd : readabilityCache (fs sample_uncached) = Some ∅) by reflexivity.
  assert (Hattempt : attemptOf (sample_record "D" "https://a/1") sample_uncached
                     = Enriched "<p>one</p>")
    by (vm_compute; reflexivity).
  assert (Hclose : (close (loadContent (sample_record "D" "https://a/1")
                             (page sample_uncached)).2).1 = None)
    by reflexivity.
  destruct (enrichment_is_cached_under_the_entry_file_name
              "D.json" (sample_record "D" "https://a/1") sample_uncached
              "<p>one</p>" ∅ Hjson Hfresh Hd Hattempt Hclose) as [Hrun _].
  split; [exact Hjson|]. split.
  - exact (f_equal fst Hrun).
  - exact (f_equal (fun r => readabilityCache (fs r.2)) Hrun).
Defined.

Lemma second_pass_sample :
  (fillCache ["B.json"; "C.json"; "D.json"] sample_uncached).1 = Return tt
  /\ (fillCache ["B.json"; "C.json"; "D.json"]
        (fillCache ["B.json"; "C.json"; "D.json"] sample_uncached).2).1 = Return tt
  /\ exists t1 t2,
       output (fillCache ["B.json"; "C.json"; "D.json"] sample_uncached).2
       = output sample_uncached ++ t1
       /\ output (fillCache ["B.json"; "C.json"; "D.json"]
                    (fillCache ["B.json"; "C.json"; "D.json"] sample_uncached).2).2
          = output (fillCache ["B.json"; "C.json"; "D.json"] sample_uncached).2 ++ t2
       /\ LoadContent "D.json" (sample_record "D" "https://a/1") ∈ t1
       /\ LoadContent "D.json" (sample_record "D" "https://a/1") ∈ t2.
Proof.
  assert (Hin : "D.json" ∈ ["B.json"; "C.json"; "D.json"]) by (do 2 right; left).
  assert (Hjson : entriesData (fs sample_uncached) ≫= (.!! "D.json")
                  = Some (Json (sample_record "D" "https://a/1")))
    by (vm_compute; reflexivity).
  assert (Hfresh : workspaceReadabilityCache (fs sample_uncached)
                     ≫= (.!! (cacheFile "D.json")) = None)
    by (vm_compute; reflexivity).
  assert (Hfirst : (fillCache ["B.json"; "C.json"; "D.json"] sample_uncached).1
                   = Return tt)
    by (vm_compute; reflexivity).
  assert (Hsecond : (fillCache ["B.json"; "C.json"; "D.json"]
                       (fillCache ["B.json"; "C.json"; "D.json"] sample_uncached).2).1
                    = Return tt)
    by (vm_compute; reflexivity).
  split; [exact Hfirst|]. split; [exact Hsecond|].
  exact (fill_does_not_populate_the_durable_cache _ _ _ _ Hin Hjson Hfresh
           Hfirst Hsecond).
Defined.

Lemma category_index_sample :
  createCategoryData sample_prepared
  = (Return tt, (createCategoryData sample_prepared).2)
  /\ exists cs,
       embeddedData (fs (createCategoryData sample_prepared).2)
       = Some (<["categories.json" := CategoriesIndex cs]> ∅)
       /\ name <$> cs = categoryNames (fs sample_prepared).
Proof.
  assert (Hrun : createCategoryData sample_prepared
                 = (Return tt, (createCategoryData sample_prepared).2))
    by (apply run_of_result; vm_compute; reflexivity).
  split; [exact Hrun|].
  destruct (category_index_is_written_twice _ _ Hrun)
    as (cs & embedded & data & He & _ & He' & _ & Hnames & _).
  exists cs. split; [|exact Hnames].
  assert (Hempty : embeddedData (fs sample_prepared) = Some ∅) by (vm_compute; reflexivity).
  rewrite Hempty in He. injection He as <-. exact He'.
Defined.

Lemma first_run_sample :
  workspaceReadabilityCache (fs sample_first_run) = None
  /\ exists e,
       (prepareEleventyData sample_first_run).1 = Throw (ErrorObject e)
       /\ last (output (prepareEleventyData sample_first_run).2)
          = Some (SetFailed (ErrorObject e)).
Proof.
  split; [reflexivity|].
  exact (run_fails_without_the_durable_cache_directory sample_first_run eq_refl).
Defined.

Lemma repository_sample :
  embeddedData (fs sample_prepared) = Some ∅
  /\ exists data,
       (createRepositoryData "llun/feeds" "" sample_prepared).1 = Return data
       /\ repository data = "/feeds".
Proof.
  assert (Hembedded : embeddedData (fs sample_prepared) = Some ∅)
    by (vm_compute; reflexivity).
  split; [exact Hembedded|].
  destruct (repository_is_the_second_part_of_the_root_name "llun/feeds" ""
              sample_prepared ∅ Hembedded) as (data & Hrun & _ & _ & Hrepo).
  exists data. split; [exact (f_equal fst Hrun)|].
  apply (Hrepo eq_refl "llun" "feeds" "").
  - unfold noSlash. vm_compute. intros Hin.
    repeat (apply elem_of_cons in Hin as [Hin|Hin]; [discriminate Hin|]).
    by apply elem_of_nil in Hin.
  - unfold noSlash. vm_compute. intros Hin.
    repeat (apply elem_of_cons in Hin as [Hin|Hin]; [discriminate Hin|]).
    by apply elem_of_nil in Hin.
  - left. reflexivity.
Defined.

Lemma successful_run_sample :
  prepareEleventyData sample_world = (Return tt, (prepareEleventyData sample_world).2)
  /\ exists data cs index,
       embeddedData (fs (prepareEleventyData sample_world).2) ≫= (.!! "github.json")
       = Some (RepositoryFile data)
       /\ embeddedData (fs (prepareEleventyData sample_world).2)
            ≫= (.!! "categories.json") = Some (CategoriesIndex cs)
       /\ dataDir (fs (prepareEleventyData sample_world).2) ≫= (.!! "categories.json")
          = Some (CategoriesIndex cs)
       /\ dataDir (fs (prepareEleventyData sample_world).2) ≫= (.!! "all.json")
          = Some (AllEntries index).
Proof.
  assert (Hrun : prepareEleventyData sample_world
                 = (Return tt, (prepareEleventyData sample_world).2))
    by (apply run_of_result; vm_compute; reflexivity).
  split; [exact Hrun|].
  exact (successful_run_has_written_the_index_files _ _ Hrun).
Defined.

Lemma twin_sites_sample :
  let w1 := (createSitesData "tech" ["a.json"] sample_twins).2 in
  let w2 := (createSitesData "news" ["a.json"] w1).2 in
  createSitesData "tech" ["a.json"] sample_twins
  = (Return [siteDataOf "tech" "a.json" sample_site], w1)
  /\ createSitesData "news" ["a.json"] w1
     = (Return [siteDataOf "news" "a.json" (mkSite "N" "https://n" 5 [])], w2)
  /\ exists json1 json2 (store : gmap string SiteDataWithEntries),
       siteFile (fs sample_twins) "tech" "a.json" = Some (Json json1)
       /\ siteFile (fs sample_twins) "news" "a.json" = Some (Json json2)
       /\ [siteDataOf "tech" "a.json" sample_site] = [siteDataOf "tech" "a.json" json1]
       /\ [siteDataOf "news" "a.json" (mkSite "N" "https://n" 5 [])]
          = [siteDataOf "news" "a.json" json2]
       /\ sitesData (fs sample_twins) = Some store
       /\ sitesData (fs w1)
          = Some (<[createHash (baseName "a.json") +:+ ".json" :=
                      siteDataOf "tech" "a.json" json1]> store)
       /\ sitesData (fs w2)
          = Some (<[createHash (baseName "a.json") +:+ ".json" :=
                      siteDataOf "news" "a.json" json2]> store).
Proof.
  intros w1 w2.
  assert (Hrun1 : createSitesData "tech" ["a.json"] sample_twins
                  = (Return [siteDataOf "tech" "a.json" sample_site], w1))
    by (apply (run_of_result (createSitesData "tech" ["a.json"]) sample_twins);
        vm_compute; reflexivity).
  assert (Hrun2 : createSitesData "news" ["a.json"] w1
                  = (Return [siteDataOf "news" "a.json" (mkSite "N" "https://n" 5 [])], w2))
    by (apply (run_of_result (createSitesData "news" ["a.json"]) w1);
        vm_compute; reflexivity).
  split; [exact Hrun1|]. split; [exact Hrun2|].
  exact (site_records_of_one_file_name_share_one_file _ _ _ _ _ _ _ _ Hrun1 Hrun2).
Defined.

Lemma malformed_site_sample :
  let w1 := (createSitesData "tech" ["a.json"] sample_half).2 in
  createSitesData "tech" ["a.json"] sample_half
  = (Return [siteDataOf "tech" "a.json" (mkSite "A" "https://a" 1 [sample_entry1])], w1)
  /\ siteFile (fs sample_half) "tech" "b.json" = Some (Malformed "<html>")
  /\ createSitesData "tech" (["a.json"] ++ "b.json" :: []) sample_half
     = (Throw (SyntaxError "Unexpected token in JSON"), w1).
Proof.
  intros w1.
  assert (Hrun : createSitesData "tech" ["a.json"] sample_half
                 = (Return [siteDataOf "tech" "a.json"
                              (mkSite "A" "https://a" 1 [sample_entry1])], w1))
    by (apply (run_of_result (createSitesData "tech" ["a.json"]) sample_half);
        vm_compute; reflexivity).
  assert (Hbad : siteFile (fs sample_half) "tech" "b.json" = Some (Malformed "<html>"))
    by (vm_compute; reflexivity).
  split; [exact Hrun|]. split; [exact Hbad|].
  exact (malformed_site_file_stops_the_materializer _ _ _ _ _ _ _ _ Hrun Hbad).
Defined.

Lemma comma_sample :
  let e1 := mkEntry ("a" +:+ "," +:+ "b") "c" 1 "p" in
  let e2 := mkEntry "a" ("b" +:+ "," +:+ "c") 2 "q" in
  let data1 := mkEntryData e1 "A" "h" (createHash "a,b,c") "tech" in
  let data2 := mkEntryData e2 "A" "h" (createHash "a,b,c") "tech" in
  let w1 := (createEntryData "tech" "A" "h" e1 sample_prepared).2 in
  let w2 := (createEntryData "tech" "A" "h" e2 w1).2 in
  createEntryData "tech" "A" "h" e1 sample_prepared = (Return data1, w1)
  /\ createEntryData "tech" "A" "h" e2 w1 = (Return data2, w2)
  /\ entryHash data1 = entryHash data2
  /\ title data1 <> title data2
  /\ entriesData (fs w1) ≫= (.!! (entryHash data1 +:+ ".json")) = Some (Json data1)
  /\ entriesData (fs w2) ≫= (.!! (entryHash data1 +:+ ".json")) = Some (Json data2).
Proof.
  intros e1 e2 data1 data2 w1 w2.
  assert (Hrun1 : createEntryData "tech" "A" "h" e1 sample_prepared = (Return data1, w1))
    by (apply (run_of_result (createEntryData "tech" "A" "h" e1) sample_prepared);
        vm_compute; reflexivity).
  assert (Hrun2 : createEntryData "tech" "A" "h" e2 w1 = (Return data2, w2))
    by (apply (run_of_result (createEntryData "tech" "A" "h" e2) w1);
        vm_compute; reflexivity).
  split; [exact Hrun1|]. split; [exact Hrun2|].
  exact (entries_that_differ_in_where_the_comma_falls_share_one_file
           "tech" "A" "h" "a" "b" "c" 1 "p" 2 "q" sample_prepared data1 w1 data2 w2
           Hrun1 Hrun2).
Defined.

Lemma one_site_category_sample :
  let w' := (createCategoryEntries [] "tech" sample_prepared).2 in
  createCategoryEntries [] "tech" sample_prepared
  = (Return [mkCategoryData "tech" [mkSiteData "A" "https://a" 1 (createHash "a")]], w')
  /\ siteNames (fs sample_prepared) "tech" = ["a.json"]
  /\ exists json,
       siteFile (fs sample_prepared) "tech" "a.json" = Some (Json json)
       /\ categoryData (fs w') ≫= (.!! ("tech" +:+ ".json"))
          = Some (entries (siteDataOf "tech" "a.json" json)).
Proof.
  intros w'.
  assert (Hrun : createCategoryEntries [] "tech" sample_prepared
                 = (Return [mkCategoryData "tech"
                              [mkSiteData "A" "https://a" 1 (createHash "a")]], w'))
    by (apply (run_of_result (createCategoryEntries [] "tech") sample_prepared);
        vm_compute; reflexivity).
  assert (Hsites : siteNames (fs sample_prepared) "tech" = ["a.json"])
    by (vm_compute; reflexivity).
  split; [exact Hrun|]. split; [exact Hsites|].
  exact (proj2 (category_of_one_site_lists_the_site_entries _ _ _ _ _ _ Hrun Hsites)).
Defined.

Lemma stray_file_sample :
  feedsContent (fs sample_stray) ≫= (.!! "README.md") = Some RegularFile
  /\ exists e,
       (createCategoryData sample_stray).1 = Throw (ErrorObject e)
       /\ embeddedData (fs (createCategoryData sample_stray).2)
          = embeddedData (fs sample_stray)
       /\ dataDir (fs (createCategoryData sample_stray).2) = dataDir (fs sample_stray).
Proof.
  assert (Hstray : ({[ "README.md" := RegularFile;
                       "tech" := CategoryDirectory {[ "a.json" := Json sample_site ]} ]}
                     : gmap string feed_node) !! "README.md" = Some RegularFile)
    by (vm_compute; reflexivity).
  split; [vm_compute; reflexivity|].
  exact (stray_file_among_categories_aborts_the_aggregation sample_stray "README.md"
           _ eq_refl Hstray).
Defined.

